(** * Rule evaluation and scoping engine of the AI Title Workshop

    A shallow embedding of [ai_title_workshop.py]: the [Rule] data model, the
    pattern compiler ([compile_rule], [recompile_all]), the match engine
    ([update_rule_hits], [refresh_preview]), the scope resolver ([visible],
    the two promotions, [clear_tmp_scope]) and the two persisted documents
    ([save_workspace], [load_workspace], [load_rules_pack], [rule_to_dict]).

    Python strings are modelled as [string], holding their UTF-8 encoding;
    documents are modelled as the values [json.load] produces. *)

From Stdlib Require Import ZArith String Ascii.
From Stdlib Require Import Floats.SpecFloat.
From stdpp Require Import gmap strings list fin_maps pretty.

Set Warnings "-register-all".
Open Scope string_scope.

(** ** Values of JSON documents *)

Inductive json : Type :=
  | JNull
  | JBool (b : bool)
  | JInt (z : Z)
  | JFloat (f : spec_float)
  | JStr (s : string)
  | JList (l : list json)
  | JDict (d : gmap string json).

(** ** Exceptions and results *)

Inductive exn : Type :=
  | IndexError | TypeError | ValueError | OverflowError
  | AttributeError | RecursionError.

Inductive result (A : Type) : Type :=
  | Ok (a : A)
  | Raise (e : exn).
Arguments Ok {A} a.
Arguments Raise {A} e.

Definition is_ok {A} (r : result A) : bool :=
  match r with Ok _ => true | Raise _ => false end.

(** ** Python built-ins on document values *)

(** [bool(v)] *)
Definition truthy (v : json) : bool :=
  match v with
  | JNull => false
  | JBool b => b
  | JInt z => negb (z =? 0)%Z
  | JFloat f => match f with S754_zero _ => false | _ => true end
  | JStr s => negb (String.eqb s "")
  | JList l => match l with [] => false | _ => true end
  | JDict d => negb (bool_decide (d = ∅))
  end.

(** [v or d] *)
Definition py_or (v d : json) : json := if truthy v then v else d.

(** [d.get(k)] and [d.get(k, dflt)] *)
Definition dict_get (d : gmap string json) (k : string) : json :=
  default JNull (d !! k).
Definition dict_get_default (d : gmap string json) (k : string) (dflt : json) : json :=
  default dflt (d !! k).

(** UTF-8: the characters of a string, and their code points. *)
Definition utf8_cont (a : ascii) : bool :=
  let n := N_of_ascii a in ((128 <=? n) && (n <? 192))%N.

Fixpoint utf8_split (s : string) : string * list string :=
  match s with
  | EmptyString => (EmptyString, [])
  | String a r =>
      let '(pend, cs) := utf8_split r in
      if utf8_cont a then (String a pend, cs) else (EmptyString, String a pend :: cs)
  end.

Definition utf8_chars (s : string) : list string :=
  let '(pend, cs) := utf8_split s in
  match pend with EmptyString => cs | _ => pend :: cs end.

Definition code_point (c : string) : N :=
  match c with
  | EmptyString => 0%N
  | String a r =>
      let n := N_of_ascii a in
      let lead := (if n <? 128 then n
                   else if n <? 224 then N.land n 31
                   else if n <? 240 then N.land n 15
                   else N.land n 7)%N in
      fold_left (fun acc b => (acc * 64 + N.land (N_of_ascii b) 63)%N)
                (list_ascii_of_string r) lead
  end.

(** [str.isspace] on one code point. *)
Definition py_isspace (cp : N) : bool :=
  bool_decide (cp ∈ [9; 10; 11; 12; 13; 28; 29; 30; 31; 32; 133; 160; 5760;
                     8192; 8193; 8194; 8195; 8196; 8197; 8198; 8199; 8200;
                     8201; 8202; 8232; 8233; 8239; 8287; 12288]%N).

(** [not s.strip()] *)
Definition is_blank (s : string) : bool :=
  forallb (fun c => py_isspace (code_point c)) (utf8_chars s).

(** [int(f)] for a float *)
Definition float_int (f : spec_float) : result Z :=
  match f with
  | S754_zero _ => Ok 0%Z
  | S754_infinity _ => Raise OverflowError
  | S754_nan => Raise ValueError
  | S754_finite s m e =>
      let v := (if 0 <=? e then Z.pos m * 2 ^ e else Z.pos m / 2 ^ (- e))%Z in
      Ok (if s then (- v)%Z else v)
  end.

(** ** The rule data model *)

Definition SCOPE_TMP : string := "TMP".
Definition SCOPE_GLOBAL : string := "__global__".
Definition SCOPE_GENRE : string := "__genre__".

Definition SCOPE_LABELS : list (string * string) :=
  [ (SCOPE_TMP, "TMP（試作）");
    (SCOPE_GLOBAL, "共通（全ジャンル）");
    (SCOPE_GENRE, "ジャンル別") ].

Record Rule : Type := mkRule {
  key : string;
  name : string;
  pattern : string;
  why : string;
  enabled : bool;
  flags : Z;
  source : string;
  error : string;
  genres : option (list string);
  scope : string;
  apply_genre : string
}.

(** [Rule(key=.., name=.., pattern=.., why=..)] with the dataclass defaults. *)
Definition Rule_new (k n p w : string) : Rule :=
  mkRule k n p w true 0 "WORKSHOP" "" None SCOPE_GLOBAL "".

Definition set_error (e : string) (r : Rule) : Rule :=
  mkRule (key r) (name r) (pattern r) (why r) (enabled r) (flags r) (source r)
         e (genres r) (scope r) (apply_genre r).

Definition set_scope (sc g : string) (r : Rule) : Rule :=
  mkRule (key r) (name r) (pattern r) (why r) (enabled r) (flags r) (source r)
         (error r) (genres r) sc g.

(** ** The interpreter services the program relies on

    The regular-expression engine ([re.compile], [Pattern.search],
    [re.escape]) and the parts of [str] and [int] that are not spelled out
    above are taken as an interface. *)

Inductive compile_outcome (M : Type) : Type :=
  | Compiled (m : M)
  | ReError (msg : string)      (* raises [re.error], [msg] is [str(e)] *)
  | OtherError (e : exn).       (* any other exception [re.compile] raises *)
Arguments Compiled {M} m.
Arguments ReError {M} msg.
Arguments OtherError {M} e.

Class Runtime : Type := {
  matcher : Type;
  re_compile : string -> Z -> compile_outcome matcher;
  re_search : matcher -> string -> bool;
  re_escape : string -> string;
  re_error_msg : forall p f msg, re_compile p f = ReError msg -> msg <> "";
  py_repr : json -> string;
  int_of_str : string -> option Z
}.

Section Workshop.
Context {RT : Runtime}.

(** [str(v)] *)
Definition py_str (v : json) : string :=
  match v with
  | JStr s => s
  | JNull => "None"
  | JBool true => "True"
  | JBool false => "False"
  | JInt z => pretty z
  | _ => py_repr v
  end.

(** [int(v)] *)
Definition py_int (v : json) : result Z :=
  match v with
  | JInt z => Ok z
  | JBool b => Ok (if b then 1 else 0)%Z
  | JFloat f => float_int f
  | JStr s => match int_of_str s with Some z => Ok z | None => Raise ValueError end
  | _ => Raise TypeError
  end.

(** [list(v)].  A JSON object is held as a map, which does not keep the
    order in which the document lists its keys: for an object, [list] gives
    the keys in the order of the map, where Python gives them in document
    order.  The program calls [list] on entries that are lists in every
    document it writes; nothing below depends on the order of the keys. *)
Definition py_list (v : json) : result (list json) :=
  match v with
  | JList l => Ok l
  | JStr s => Ok (JStr <$> utf8_chars s)
  | JDict d => Ok (JStr <$> (map_to_list d).*1)
  | _ => Raise TypeError
  end.

(** ** Pattern compiler *)

(** [compile_rule(r)]: the rule as the call leaves it, and the matcher. *)
Definition compile_rule (r : Rule) : result (Rule * option matcher) :=
  if negb (enabled r) || String.eqb (pattern r) "" then Ok (r, None)
  else match re_compile (pattern r) (flags r) with
       | Compiled m => Ok (r, Some m)
       | ReError msg => Ok (set_error msg r, None)
       | OtherError e => Raise e
       end.

(** [recompile_all]: the loop over [self.rules]; the outcome, the rules and
    the matcher list as the loop leaves them (also when it is cut short). *)
Fixpoint recompile_loop (rs : list Rule)
  : result unit * list Rule * list (option matcher) :=
  match rs with
  | [] => (Ok tt, [], [])
  | r :: rest =>
      let r0 := set_error "" r in
      match compile_rule r0 with
      | Raise e => (Raise e, r0 :: rest, [])
      | Ok (r1, c) =>
          let '(res, rest', cs) := recompile_loop rest in
          (res, r1 :: rest', c :: cs)
      end
  end.

(** ** Match engine *)

(** [cre.search(t)] *)
Definition search_title (cre : matcher) (t : json) : result bool :=
  match t with
  | JStr s => Ok (re_search cre s)
  | _ => Raise TypeError
  end.

(** The inner loop of [update_rule_hits] for one title, from index [idx]. *)
Fixpoint scan_rules (compiled : list (option matcher)) (t : json)
    (idx : nat) (rs : list Rule) (hits : list nat) : result (list nat) :=
  match rs with
  | [] => Ok hits
  | r :: rest =>
      match compiled !! idx with
      | None => Raise IndexError
      | Some cre =>
          match cre with
          | Some m =>
              if negb (enabled r) then scan_rules compiled t (S idx) rest hits
              else match search_title m t with
                   | Raise e => Raise e
                   | Ok true => Ok (alter S idx hits)
                   | Ok false => scan_rules compiled t (S idx) rest hits
                   end
          | None => scan_rules compiled t (S idx) rest hits
          end
      end
  end.

(** The outer loop over the titles. *)
Fixpoint count_titles (rs : list Rule) (compiled : list (option matcher))
    (titles : list json) (hits : list nat) : result (list nat) :=
  match titles with
  | [] => Ok hits
  | t :: ts =>
      match scan_rules compiled t 0 rs hits with
      | Raise e => Raise e
      | Ok hits' => count_titles rs compiled ts hits'
      end
  end.

(** [update_rule_hits]: the [_hit] counters the call leaves on the rules, in
    rule order; they are read back by the rule tree only. *)
Definition update_rule_hits (rs : list Rule) (compiled : list (option matcher))
    (sample_titles : list json) : result (list nat) :=
  count_titles rs compiled (take 3000 sample_titles) (replicate (length rs) 0).

(** [refresh_preview]: the text put in the preview pane. *)
Definition NL : string := String (ascii_of_nat 10) EmptyString.

Definition NO_SAMPLES_MSG : string :=
  "sample_titles がありません（本体で読み込み→workspace保存してください）".

(** The inner loop of [refresh_preview]: the annotation of one title. *)
Fixpoint preview_hit (compiled : list (option matcher)) (t : json)
    (idx : nat) (rs : list Rule) : result string :=
  match rs with
  | [] => Ok ""
  | r :: rest =>
      match compiled !! idx with
      | None => Raise IndexError
      | Some cre =>
          match cre with
          | Some m =>
              if negb (enabled r) then preview_hit compiled t (S idx) rest
              else match search_title m t with
                   | Raise e => Raise e
                   | Ok true => Ok (" -> " ++ name r)
                   | Ok false => preview_hit compiled t (S idx) rest
                   end
          | None => preview_hit compiled t (S idx) rest
          end
      end
  end.

(** [t + hit] *)
Definition preview_line (rs : list Rule) (compiled : list (option matcher))
    (t : json) : result string :=
  match preview_hit compiled t 0 rs with
  | Raise e => Raise e
  | Ok hit => match t with JStr s => Ok (s ++ hit) | _ => Raise TypeError end
  end.

Fixpoint preview_title_lines (rs : list Rule) (compiled : list (option matcher))
    (titles : list json) : result (list string) :=
  match titles with
  | [] => Ok []
  | t :: ts =>
      match preview_line rs compiled t with
      | Raise e => Raise e
      | Ok l => match preview_title_lines rs compiled ts with
                | Raise e => Raise e
                | Ok ls => Ok (l :: ls)
                end
      end
  end.

Definition has_error (r : Rule) : bool := negb (String.eqb (error r) "").

Definition error_line (r : Rule) : string := "- " ++ name r ++ ": " ++ error r.

(** The lines of the [ERROR] block: a header and at most 20 rules. *)
Definition preview_error_lines (rs : list Rule) : list string :=
  let errs := List.filter has_error rs in
  match errs with
  | [] => []
  | _ => (NL ++ "[ERROR]") :: (error_line <$> take 20 errs)
  end.

Definition join_lines (ls : list string) : string := String.concat NL ls.

Definition refresh_preview (rs : list Rule) (compiled : list (option matcher))
    (sample_titles : list json) : result string :=
  let titles := take 400 sample_titles in
  match titles with
  | [] => Ok NO_SAMPLES_MSG
  | _ =>
      match preview_title_lines rs compiled (take 200 titles) with
      | Raise e => Raise e
      | Ok ls => Ok (join_lines (ls ++ preview_error_lines rs))
      end
  end.

(** ** Scope resolver *)

(** The closure [visible] of [refresh_rule_tree], for the selected scope
    [scope_sel] and the current genre [g]. *)
Definition visible (scope_sel g : string) (r : Rule) : bool :=
  let rs := if String.eqb (scope r) "" then SCOPE_GLOBAL else scope r in
  if String.eqb scope_sel SCOPE_TMP then String.eqb rs SCOPE_TMP
  else if String.eqb scope_sel SCOPE_GENRE then
    String.eqb rs SCOPE_GENRE && String.eqb (apply_genre r) g
  else String.eqb rs SCOPE_GLOBAL.

(** [_scope_key_from_label] *)
Fixpoint scope_key_lookup (labels : list (string * string)) (label : string) : string :=
  match labels with
  | [] => SCOPE_TMP
  | (k, v) :: rest => if String.eqb v label then k else scope_key_lookup rest label
  end.

Definition _scope_key_from_label (label : string) : string :=
  scope_key_lookup SCOPE_LABELS label.

(** ** Serialization of one rule *)

Definition insert_if (c : bool) (k : string) (v : json)
    (d : gmap string json) : gmap string json :=
  if c then <[k := v]> d else d.

Definition genres_truthy (g : option (list string)) : bool :=
  match g with Some (_ :: _) => true | _ => false end.

Definition genres_json (g : option (list string)) : json :=
  match g with Some l => JList (JStr <$> l) | None => JNull end.

Definition rule_to_dict (r : Rule) : gmap string json :=
  let d : gmap string json :=
    <["source" := JStr (source r)]>
    (<["flags" := JInt (flags r)]>
    (<["enabled" := JBool (enabled r)]>
    (<["why" := JStr (why r)]>
    (<["pattern" := JStr (pattern r)]>
    (<["name" := JStr (name r)]>
    (<["key" := JStr (key r)]> ∅)))))) in
  let d := insert_if (genres_truthy (genres r)) "genres" (genres_json (genres r)) d in
  let d := insert_if (negb (String.eqb (scope r) "")) "scope" (JStr (scope r)) d in
  let d := insert_if (negb (String.eqb (apply_genre r) "")) "apply_genre"
                     (JStr (apply_genre r)) d in
  insert_if (negb (String.eqb (error r) "")) "error" (JStr (error r)) d.

(** ** Reading rules from a document *)

Definition GENRE_UNSELECTED : string := "未選択".

(** [[str(x) for x in genres if str(x).strip()]], or [None]. *)
Definition parse_genres (it : gmap string json) : option (list string) :=
  match dict_get it "genres" with
  | JList l => Some (List.filter (fun s => negb (is_blank s)) (py_str <$> l))
  | _ => None
  end.

(** The [Rule(...)] call shared by both loaders; [n] is [len(rules)]. *)
Definition rule_from_item (n : nat) (it : gmap string json) : result Rule :=
  match py_int (py_or (dict_get_default it "flags" (JInt 0)) (JInt 0)) with
  | Raise e => Raise e
  | Ok fl =>
      Ok (mkRule
            (py_str (py_or (dict_get it "key") (JStr ("R_" ++ pretty n))))
            (py_str (py_or (dict_get it "name") (JStr "rule")))
            (py_str (py_or (dict_get it "pattern") (JStr "")))
            (py_str (py_or (dict_get it "why") (JStr "")))
            (truthy (dict_get_default it "enabled" (JBool true)))
            fl
            (py_str (py_or (dict_get it "source") (JStr "WORKSHOP")))
            (py_str (py_or (dict_get it "error") (JStr "")))
            (parse_genres it)
            SCOPE_GLOBAL "")
  end.

(** The body of the loop in [load_rules_pack]. *)
Definition pack_rule (n : nat) (it : gmap string json) : result Rule :=
  rule_from_item n it.

(** The body of the loop in [load_workspace], which also restores the scope. *)
Definition workspace_rule (n : nat) (it : gmap string json) : result Rule :=
  match rule_from_item n it with
  | Raise e => Raise e
  | Ok r =>
      Ok (set_scope (py_str (py_or (dict_get it "scope") (JStr SCOPE_GLOBAL)))
                    (py_str (py_or (dict_get it "apply_genre") (JStr "")))
                    r)
  end.

(** [for it in rules_data: ...], skipping the items that are not objects. *)
Fixpoint load_rules_loop (mk : nat -> gmap string json -> result Rule)
    (items : list json) (rules : list Rule) : result (list Rule) :=
  match items with
  | [] => Ok rules
  | JDict it :: rest =>
      match mk (length rules) it with
      | Raise e => Raise e
      | Ok r => load_rules_loop mk rest (rules ++ [r])
      end
  | _ :: rest => load_rules_loop mk rest rules
  end.

Definition load_rules (mk : nat -> gmap string json -> result Rule)
    (rules_data : json) : result (list Rule) :=
  match rules_data with
  | JList items => load_rules_loop mk items []
  | _ => Ok []
  end.

(** ** Starter rules *)

Definition heuristic_suggestions (examples : list json) (ignore_words : list string)
  : list Rule :=
  let parts := re_escape <$> List.filter (fun w => negb (is_blank w)) ignore_words in
  [ Rule_new "tail_number" "末尾番号（01/001/12-345 など）"
      "(?i)(?:^|[ _\-\u3000])\d{1,4}(?:-\d{1,4})?$"
      "末尾の巻数/番号っぽい部分を除外するため";
    Rule_new "bracket_tag" "括弧タグ（[...]/(...)/【...】）"
      "[\[\(（【].{1,30}?[\]\)）】]"
      "表紙/差分/修正版などが括弧に入ることが多いため" ]
  ++ match parts with
     | [] => []
     | _ => [ Rule_new "ignore_words" "無視語（まとめ）"
                ("(?i)(" ++ String.concat "|" (take 80 parts) ++ ")")
                "無視語に入っている語をまとめて除外するため" ]
     end
  ++ [ Rule_new "camera_prefix" "カメラ系プレフィックス（IMG_/DSC_ など）"
         "(?i)\b(?:img|dsc|pxl|vid|mv)[ _-]?\d{3,}\b"
         "撮影機器由来の管理番号を除外するため" ].

(** ** Application state

    The attributes of [WorkshopApp] that hold data, and the files the
    application reads and writes ([files] maps a path to the document stored
    there; a path without a readable JSON document is absent; writing a
    document is taken to succeed).  Widgets hold
    no data of their own; what the user selects or types is an argument of
    the operation. [ignore_scoped] is [None] until [load_workspace] creates
    the attribute.  [workspace] holds the entries of [self.workspace] by
    value.  One of them can be an object that an attribute holds too: after
    [load_workspace] of a document with a dict under [ignore_scoped], that
    dict is [self.ignore_scoped] itself, so what [_ensure_scoped_structures]
    adds to it shows in [self.workspace]; this is written out in
    [_ensure_scoped_structures].  [clear_tmp_scope] empties a bucket of that
    dict just before it calls [save_workspace], which writes the entry anew:
    [workspace] shows the emptied bucket once the document is written.
    [save_workspace] is the only reader of [self.workspace], and it writes
    the entries it shares with the attributes before it uses them. *)

Record App : Type := mkApp {
  workspace_path : string;
  rules_pack_path : string;
  workspace : gmap string json;
  sample_titles : list json;
  exclude_examples : list json;
  keep_examples : list json;
  ignore_words : list string;
  genre : string;
  ignore_scoped : option json;
  rules : list Rule;
  compiled : list (option matcher);
  scope_var : string;
  files : gmap string json
}.

Definition set_workspace_path (x : string) (a : App) : App :=
  mkApp x (rules_pack_path a) (workspace a) (sample_titles a) (exclude_examples a)
        (keep_examples a) (ignore_words a) (genre a) (ignore_scoped a) (rules a)
        (compiled a) (scope_var a) (files a).
Definition set_rules_pack_path (x : string) (a : App) : App :=
  mkApp (workspace_path a) x (workspace a) (sample_titles a) (exclude_examples a)
        (keep_examples a) (ignore_words a) (genre a) (ignore_scoped a) (rules a)
        (compiled a) (scope_var a) (files a).
Definition set_workspace (x : gmap string json) (a : App) : App :=
  mkApp (workspace_path a) (rules_pack_path a) x (sample_titles a) (exclude_examples a)
        (keep_examples a) (ignore_words a) (genre a) (ignore_scoped a) (rules a)
        (compiled a) (scope_var a) (files a).
Definition set_sample_titles (x : list json) (a : App) : App :=
  mkApp (workspace_path a) (rules_pack_path a) (workspace a) x (exclude_examples a)
        (keep_examples a) (ignore_words a) (genre a) (ignore_scoped a) (rules a)
        (compiled a) (scope_var a) (files a).
Definition set_exclude_examples (x : list json) (a : App) : App :=
  mkApp (workspace_path a) (rules_pack_path a) (workspace a) (sample_titles a) x
        (keep_examples a) (ignore_words a) (genre a) (ignore_scoped a) (rules a)
        (compiled a) (scope_var a) (files a).
Definition set_keep_examples (x : list json) (a : App) : App :=
  mkApp (workspace_path a) (rules_pack_path a) (workspace a) (sample_titles a)
        (exclude_examples a) x (ignore_words a) (genre a) (ignore_scoped a) (rules a)
        (compiled a) (scope_var a) (files a).
Definition set_genre (x : string) (a : App) : App :=
  mkApp (workspace_path a) (rules_pack_path a) (workspace a) (sample_titles a)
        (exclude_examples a) (keep_examples a) (ignore_words a) x (ignore_scoped a)
        (rules a) (compiled a) (scope_var a) (files a).
Definition set_ignore_scoped (x : option json) (a : App) : App :=
  mkApp (workspace_path a) (rules_pack_path a) (workspace a) (sample_titles a)
        (exclude_examples a) (keep_examples a) (ignore_words a) (genre a) x
        (rules a) (compiled a) (scope_var a) (files a).
Definition set_rules (x : list Rule) (a : App) : App :=
  mkApp (workspace_path a) (rules_pack_path a) (workspace a) (sample_titles a)
        (exclude_examples a) (keep_examples a) (ignore_words a) (genre a)
        (ignore_scoped a) x (compiled a) (scope_var a) (files a).
Definition set_compiled (x : list (option matcher)) (a : App) : App :=
  mkApp (workspace_path a) (rules_pack_path a) (workspace a) (sample_titles a)
        (exclude_examples a) (keep_examples a) (ignore_words a) (genre a)
        (ignore_scoped a) (rules a) x (scope_var a) (files a).
Definition set_files (x : gmap string json) (a : App) : App :=
  mkApp (workspace_path a) (rules_pack_path a) (workspace a) (sample_titles a)
        (exclude_examples a) (keep_examples a) (ignore_words a) (genre a)
        (ignore_scoped a) (rules a) (compiled a) (scope_var a) x.

(** ** Methods: state and exceptions

    A method takes the state and gives back its outcome together with the
    state it leaves; what a method assigned before raising stays assigned. *)

Definition M (A : Type) : Type := App -> result A * App.

#[local] Instance M_ret : MRet M := fun A a st => (Ok a, st).
#[local] Instance M_bind : MBind M := fun A B f m st =>
  match m st with
  | (Ok a, st') => f a st'
  | (Raise e, st') => (Raise e, st')
  end.

Definition raise (e : exn) : M unit := fun st => (Raise e, st).
Definition pass : M unit := fun st => (Ok tt, st).
Definition get_state : M App := fun st => (Ok st, st).
Definition modify (f : App -> App) : M unit := fun st => (Ok tt, f st).
Definition lift {A} (r : result A) : M A := fun st => (r, st).

(** [recompile_all] *)
Definition recompile_all : M unit := fun st =>
  let '(res, rs, cs) := recompile_loop (rules st) in
  (res, set_compiled cs (set_rules rs st)).

(** [refresh_all]: recounts the hits and repaints the widgets; the rule tree
    and the detail pane cannot raise. *)
Definition refresh_all : M unit :=
  st ← get_state;
  _ ← lift (update_rule_hits (rules st) (compiled st) (sample_titles st));
  _ ← lift (refresh_preview (rules st) (compiled st) (sample_titles st));
  pass.

Definition get_current_scope (st : App) : string :=
  _scope_key_from_label (scope_var st).

(** [_ensure_scoped_structures] *)
Definition EMPTY_SCOPED : gmap string json :=
  <[SCOPE_GENRE := JDict ∅]> (<[SCOPE_TMP := JList []]> (<[SCOPE_GLOBAL := JList []]> ∅)).

Definition ensure_list (k : string) (d : gmap string json) : gmap string json :=
  match d !! k with Some (JList _) => d | _ => <[k := JList []]> d end.

Definition ensure_dict (k : string) (d : gmap string json) : gmap string json :=
  match d !! k with Some (JDict _) => d | _ => <[k := JDict ∅]> d end.

Definition ensure_scope (r : Rule) : Rule :=
  if String.eqb (scope r) "" then set_scope SCOPE_GLOBAL (apply_genre r) r else r.

Definition ensure_buckets (d : gmap string json) : gmap string json :=
  ensure_dict SCOPE_GENRE (ensure_list SCOPE_TMP (ensure_list SCOPE_GLOBAL d)).

(** [shared] tells whether [self.ignore_scoped] is the object that
    [self.workspace] holds under [ignore_scoped]: the buckets are set in that
    object, so they show in [self.workspace] as well.  A value that is not a
    dict is replaced by a new dict, which [self.workspace] does not hold. *)
Definition _ensure_scoped_structures (shared : bool) : M unit :=
  modify (fun st =>
    match ignore_scoped st with
    | Some (JDict d) =>
        let st := set_ignore_scoped (Some (JDict (ensure_buckets d))) st in
        let st :=
          if shared
          then set_workspace (<["ignore_scoped" := JDict (ensure_buckets d)]> (workspace st)) st
          else st in
        set_rules (ensure_scope <$> rules st) st
    | _ =>
        set_rules (ensure_scope <$> rules st)
          (set_ignore_scoped (Some (JDict (ensure_buckets EMPTY_SCOPED))) st)
    end).

(** [save_workspace] *)
Definition save_workspace : M unit :=
  st ← get_state;
  if String.eqb (workspace_path st) "" then pass
  else
    let data := workspace st in
    let data := <["genre" := JStr (genre st)]> data in
    let data := <["exclude_examples" := JList (exclude_examples st)]> data in
    let data := <["keep_examples" := JList (keep_examples st)]> data in
    let data := <["sample_titles" := JList (sample_titles st)]> data in
    match ignore_scoped st with
    | None => raise AttributeError
    | Some isc =>
        let data := <["ignore_scoped" := isc]> data in
        match isc with
        | JDict d =>
            legacy ← lift (py_list (dict_get_default d SCOPE_GLOBAL (JList [])));
            let data := <["ignore_words" := JList legacy]> data in
            let data := <["rules" := JList (JDict <$> (rule_to_dict <$> rules st))]> data in
            _ ← modify (fun st => set_files (<[workspace_path st := JDict data]> (files st)) st);
            modify (set_workspace data)
        | _ => raise AttributeError
        end
    end.

(** [load_workspace]; [self.ignore_scoped] is first the object found in
    the document, and stays that object when it is a dict. *)
Definition load_workspace (path : string) : M unit :=
  st ← get_state;
  match files st !! path with
  | Some (JDict data) =>
      _ ← modify (set_workspace_path path);
      _ ← modify (set_workspace data);
      _ ← modify (set_genre (py_str (py_or (dict_get data "genre") (JStr GENRE_UNSELECTED))));
      _ ← modify (set_ignore_scoped (Some (dict_get data "ignore_scoped")));
      _ ← match dict_get data "ignore_scoped" with
          | JDict _ => pass
          | _ =>
              legacy ← lift (py_list (py_or (dict_get data "ignore_words") (JList [])));
              modify (set_ignore_scoped (Some (JDict
                (<[SCOPE_GENRE := JDict ∅]> (<[SCOPE_TMP := JList []]>
                   (<[SCOPE_GLOBAL := JList legacy]> ∅))))))
          end;
      ex ← lift (py_list (py_or (dict_get data "exclude_examples") (JList [])));
      _ ← modify (set_exclude_examples ex);
      kp ← lift (py_list (py_or (dict_get data "keep_examples") (JList [])));
      _ ← modify (set_keep_examples kp);
      sm ← lift (py_list (py_or (dict_get data "sample_titles") (JList [])));
      _ ← modify (set_sample_titles sm);
      rs ← lift (load_rules workspace_rule (py_or (dict_get data "rules") (JList [])));
      _ ← modify (set_rules rs);
      _ ← _ensure_scoped_structures
            (match dict_get data "ignore_scoped" with JDict _ => true | _ => false end);
      refresh_all
  | _ => pass
  end.

(** [load_rules_pack] *)
Definition load_rules_pack (path : string) : M unit :=
  st ← get_state;
  match files st !! path with
  | None | Some JNull => pass
  | Some data =>
      let rules_data :=
        match data with
        | JDict d => py_or (dict_get d "rules") (JList [])
        | _ => data
        end in
      rs ← lift (load_rules pack_rule rules_data);
      _ ← modify (set_rules_pack_path path);
      _ ← modify (set_rules rs);
      _ ← recompile_all;
      refresh_all
  end.

(** [promote_selected_rule_to_global]; [sel] is the selected row, if any. *)
Definition promote_selected_rule_to_global (sel : option nat) : M unit :=
  match sel with
  | None => pass
  | Some i =>
      st ← get_state;
      match rules st !! i with
      | None => raise IndexError
      | Some r =>
          _ ← modify (set_rules (<[i := set_scope SCOPE_GLOBAL "" r]> (rules st)));
          save_workspace
      end
  end.

(** [promote_selected_rule_to_genre] *)
Definition promote_selected_rule_to_genre (sel : option nat) : M unit :=
  match sel with
  | None => pass
  | Some i =>
      st ← get_state;
      match rules st !! i with
      | None => raise IndexError
      | Some r =>
          _ ← modify (set_rules (<[i := set_scope SCOPE_GENRE (genre st) r]> (rules st)));
          save_workspace
      end
  end.

(** [clear_tmp_scope]; [confirm] is the answer to the confirmation dialog. *)
Definition clear_tmp_scope (confirm : bool) : M unit :=
  if negb confirm then pass
  else
    _ ← modify (fun st =>
           set_rules (List.filter (fun r => negb (String.eqb (scope r) SCOPE_TMP)) (rules st)) st);
    st ← get_state;
    match ignore_scoped st with
    | None => raise AttributeError
    | Some (JDict d) =>
        _ ← modify (set_ignore_scoped (Some (JDict (<[SCOPE_TMP := JList []]> d))));
        save_workspace
    | Some _ => raise TypeError
    end.

(** [add_heuristics] *)
Definition add_heuristics : M unit :=
  _ ← modify (fun st =>
         let base := heuristic_suggestions (exclude_examples st) (ignore_words st) in
         let existing : gset string := list_to_set (key <$> rules st) in
         set_rules
           (foldl (fun acc r => if bool_decide (key r ∈ existing) then acc else (acc ++ [r])%list)
                  (rules st) base) st);
  _ ← recompile_all;
  refresh_all.

(** [add_new_rule] *)
Definition add_new_rule : M unit :=
  st ← get_state;
  let n := length (rules st) in
  _ ← modify (set_rules (rules st ++
         [mkRule ("custom_" ++ pretty n) ("新規ルール" ++ pretty n) "" "" true 0
                 "WORKSHOP" "" None SCOPE_GLOBAL ""])%list);
  _ ← recompile_all;
  st ← get_state;
  let sc := get_current_scope st in
  match last (rules st) with
  | None => raise IndexError
  | Some r =>
      _ ← modify (set_rules
             (<[pred (length (rules st)) :=
                  set_scope sc (if String.eqb sc SCOPE_GENRE then genre st else "") r]>
                (rules st)));
      _ ← save_workspace;
      refresh_all
  end.

(** [delete_selected_rule]; [idx] is the selected row, [confirm] the answer
    to the confirmation dialog. *)
Definition delete_selected_rule (idx : option nat) (confirm : bool) : M unit :=
  match idx with
  | None => pass
  | Some i =>
      if confirm then
        st ← get_state;
        match rules st !! i with
        | None => raise IndexError
        | Some _ =>
            _ ← modify (set_rules (delete i (rules st)));
            _ ← recompile_all;
            refresh_all
        end
      else pass
  end.

End Workshop.

(** ** Vocabulary of the specification *)

Section Vocabulary.
Context {RT : Runtime}.

(** Rule [i] fires on title [t]: it is enabled, has a matcher, and the
    matcher finds its pattern somewhere in [t]. *)
Definition fires (rs : list Rule) (compiled : list (option matcher))
    (i : nat) (t : string) : bool :=
  match rs !! i, compiled !! i with
  | Some r, Some (Some m) => enabled r && re_search m t
  | _, _ => false
  end.

(** Rule [i] is the first rule, in collection order, that fires on [t]. *)
Definition first_to_fire (rs : list Rule) (compiled : list (option matcher))
    (i : nat) (t : string) : bool :=
  fires rs compiled i t && forallb (fun j => negb (fires rs compiled j t)) (seq 0 i).

(** One counter per rule: the number of titles, among the first 3000, on
    which that rule is the first to fire. *)
Definition first_match_hits (rs : list Rule) (compiled : list (option matcher))
    (titles : list string) : list nat :=
  (fun i => length (List.filter (first_to_fire rs compiled i) (take 3000 titles)))
    <$> seq 0 (length rs).

(** The index at which the scan of one title stops, if it stops early. *)
Fixpoint first_fire_from (compiled : list (option matcher)) (t : string)
    (idx : nat) (rs : list Rule) : option nat :=
  match rs with
  | [] => None
  | r :: rest =>
      match compiled !! idx with
      | Some (Some m) =>
          if enabled r && re_search m t then Some idx
          else first_fire_from compiled t (S idx) rest
      | _ => first_fire_from compiled t (S idx) rest
      end
  end.

Definition bump (w : option nat) (hits : list nat) : list nat :=
  match w with Some k => alter S k hits | None => hits end.

(** A rule as the rule-pack loader leaves its scope. *)
Definition global_scoped (r : Rule) : Prop :=
  scope r = SCOPE_GLOBAL /\ apply_genre r = "".

(** The rules and workspaces that the loader's defaults leave as they are. *)
Definition wf_genres (g : option (list string)) : Prop :=
  match g with
  | None => True
  | Some l => l <> [] /\ Forall (fun s => is_blank s = false) l
  end.

Definition wf_rule (r : Rule) : Prop :=
  key r <> "" /\ name r <> "" /\ source r <> "" /\ scope r <> "" /\
  wf_genres (genres r).

Definition wf_scoped (isc : option json) : Prop :=
  exists d gl tl gd,
    isc = Some (JDict d) /\ d !! SCOPE_GLOBAL = Some (JList gl) /\
    d !! SCOPE_TMP = Some (JList tl) /\ d !! SCOPE_GENRE = Some (JDict gd).

Definition wf_workspace (st : App) : Prop :=
  workspace_path st <> "" /\ genre st <> "" /\
  wf_scoped (ignore_scoped st) /\ Forall wf_rule (rules st).

(** The content of a workspace: what the document stores. *)
Definition content (st : App) :=
  (genre st, exclude_examples st, keep_examples st, sample_titles st,
   ignore_scoped st, rules st).

(** The document [save_workspace] writes; [legacy] is the GLOBAL bucket. *)
Definition workspace_document (st : App) (legacy : list json) : gmap string json :=
  <["rules" := JList (JDict <$> (rule_to_dict <$> rules st))]>
  (<["ignore_words" := JList legacy]>
  (<["ignore_scoped" := default JNull (ignore_scoped st)]>
  (<["sample_titles" := JList (sample_titles st)]>
  (<["keep_examples" := JList (keep_examples st)]>
  (<["exclude_examples" := JList (exclude_examples st)]>
  (<["genre" := JStr (genre st)]> (workspace st))))))).

End Vocabulary.

(** ** A small engine to run the model on examples

    It agrees with [re] on patterns without metacharacters and flags 0
    (substring search) and on a single unclosed group; [LOCALE] (flag 4) on a
    text pattern raises [ValueError] as in [re].  Other patterns are outside
    what it covers and are rejected. *)

Definition is_meta (a : ascii) : bool :=
  bool_decide (a ∈ list_ascii_of_string ".^$*+?{}[]\|()").

Fixpoint contains (p t : string) : bool :=
  String.prefix p t ||
  match t with
  | EmptyString => false
  | String _ r => contains p r
  end.

Fixpoint find_char (a : ascii) (s : string) (i : nat) : option nat :=
  match s with
  | EmptyString => None
  | String b r => if Ascii.eqb a b then Some i else find_char a r (S i)
  end.

Definition sample_compile (p : string) (f : Z) : compile_outcome string :=
  if forallb (fun a => negb (is_meta a)) (list_ascii_of_string p) then
    if Z.testbit f 2 then OtherError ValueError else Compiled p
  else
    match find_char "(" p 0, find_char ")" p 0 with
    | Some i, None =>
        ReError ("missing ), unterminated subpattern at position " ++ pretty i)
    | _, _ => ReError "pattern outside the sample engine"
    end.

Fixpoint digits_value (s : string) (acc : Z) : option Z :=
  match s with
  | EmptyString => Some acc
  | String a r =>
      let n := nat_of_ascii a in
      if (48 <=? n)%nat && (n <=? 57)%nat
      then digits_value r (10 * acc + Z.of_nat (n - 48))%Z
      else None
  end.

Definition sample_int_of_str (s : string) : option Z :=
  match s with EmptyString => None | _ => digits_value s 0 end.

Lemma sample_compile_msg p f msg : sample_compile p f = ReError msg -> msg <> "".
Proof.
  unfold sample_compile.
  destruct (forallb _ _).
  - destruct (Z.testbit f 2); discriminate.
  - destruct (find_char "(" p 0), (find_char ")" p 0);
      intros [= <-]; discriminate.
Qed.

Definition sample_runtime : Runtime := {|
  matcher := string;
  re_compile := sample_compile;
  re_search := contains;
  re_escape := fun s => s;
  re_error_msg := sample_compile_msg;
  py_repr := fun _ => "<object>";
  int_of_str := sample_int_of_str
|}.

(** ** Sample workspaces *)

Definition sample_scoped : gmap string json :=
  <[SCOPE_GENRE := JDict (<["Comics" := JList [JStr "vol"]]> ∅)]>
  (<[SCOPE_TMP := JList [JStr "sample"]]>
  (<[SCOPE_GLOBAL := JList [JStr "raw"; JStr "scan"]]> ∅)).

Definition sample_rule (k n p sc g : string) : Rule :=
  mkRule k n p "" true 0 "WORKSHOP" "" None sc g.

(** A workshop on [workspace.json] holding the rules [rs], with their
    matchers as [recompile_all] leaves them. *)
Definition sample_app (rs : list Rule) : App :=
  let '(_, rs', cs) := recompile_loop (RT := sample_runtime) rs in
  mkApp (RT := sample_runtime) "workspace.json" "rules_pack.json" ∅
    [JStr "Show Title 01"; JStr "Show Title 02"; JStr "Random Clean Title"]
    [JStr "Show Title 01"] [JStr "Random Clean Title"] [] "Comics"
    (Some (JDict sample_scoped)) rs' cs "TMP（試作）" ∅.

(** One rule of each scope. *)
Definition rules_each_scope : list Rule :=
  [ sample_rule "custom_0" "draft" "Show" SCOPE_TMP "";
    sample_rule "custom_1" "common" "Title" SCOPE_GLOBAL "";
    sample_rule "custom_2" "comics" "01" SCOPE_GENRE "Comics" ].

(** Three TEMPORARY rules among two GLOBAL ones. *)
Definition rules_three_tmp : list Rule :=
  [ sample_rule "t1" "draft 1" "Show" SCOPE_TMP "";
    sample_rule "g1" "common 1" "Title" SCOPE_GLOBAL "";
    sample_rule "t2" "draft 2" "01" SCOPE_TMP "";
    sample_rule "t3" "draft 3" "02" SCOPE_TMP "";
    sample_rule "g2" "common 2" "Clean" SCOPE_GLOBAL "" ].

(** A workshop in which every rule has been deleted. *)
Definition emptied_app : App := sample_app [].

(** A document from before the scoped ignore words, with a keyless rule. *)
Definition legacy_document : gmap string json :=
  <["rules" := JList [JDict (<["pattern" := JStr "Show"]> (<["name" := JStr "show"]> ∅))] ]>
  (<["ignore_words" := JList [JStr "raw"]]>
  (<["genre" := JStr "Comics"]> ∅)).

(** A document whose scoped ignore words lack two of the three buckets. *)
Definition partial_document : gmap string json :=
  <["ignore_scoped" := JDict (<[SCOPE_GLOBAL := JList [JStr "raw"]]> ∅)]>
  (<["genre" := JStr "Comics"]> ∅).

(** A document whose rule has flags that are not a number. *)
Definition bad_document : gmap string json :=
  <["rules" := JList [JDict (<["flags" := JStr "x"]> (<["key" := JStr "a"]> ∅))] ]>
  (<["genre" := JStr "Novels"]> ∅).

(** The sample workshop beside a file [path] that holds [doc]. *)
Definition app_with_file (path : string) (doc : json) : App :=
  set_files (RT := sample_runtime) (<[path := doc]> ∅) (sample_app rules_each_scope).

(** A rule that holds an error from an earlier compilation and whose
    pattern is malformed, before a rule that compiles. *)
Definition rules_with_stale_error : list Rule :=
  [ mkRule "bad" "unclosed" "(Show" "" true 0 "WORKSHOP" "stale" None SCOPE_GLOBAL "";
    mkRule "off" "disabled" "Title" "" false 0 "WORKSHOP" "stale" None SCOPE_GLOBAL "";
    sample_rule "ok" "clean" "Clean" SCOPE_TMP "" ].

(** ** Further functions of the workshop *)

(** *** Guide colours for the number of examples *)

Definition EX_MIN : Z := 5.
Definition EX_MAX : Z := 15.
Definition KEEP_MIN : Z := 3.
Definition KEEP_MAX : Z := 10.
Definition COLOR_GRAY : string := "#666666".
Definition COLOR_GREEN : string := "#2e8b57".
Definition COLOR_BLUE : string := "#1e90ff".

Definition _color_for_count (count min_v max_v : Z) : string :=
  if (count <? min_v)%Z then COLOR_GRAY
  else if ((min_v <=? count) && (count <=? max_v))%Z then COLOR_GREEN
  else COLOR_BLUE.

(** *** [str.strip] and [str.split(",")] *)

Definition is_space_char (c : string) : bool := py_isspace (code_point c).

Fixpoint drop_spaces (cs : list string) : list string :=
  match cs with
  | [] => []
  | c :: rest => if is_space_char c then drop_spaces rest else cs
  end.

(** [s.strip()] *)
Definition py_strip (s : string) : string :=
  String.concat "" (rev (drop_spaces (rev (drop_spaces (utf8_chars s))))).

(** [s.split(",")] *)
Fixpoint split_comma (s : string) : list string :=
  match s with
  | EmptyString => [EmptyString]
  | String a r =>
      if Ascii.eqb a "," then EmptyString :: split_comma r
      else match split_comma r with
           | [] => [String a EmptyString]
           | x :: xs => String a x :: xs
           end
  end.

Definition set_enabled (b : bool) (r : Rule) : Rule :=
  mkRule (key r) (name r) (pattern r) (why r) b (flags r) (source r)
         (error r) (genres r) (scope r) (apply_genre r).

(** The assignments of [apply_rule_edit] to the selected rule; [fl] is the
    value the flags end with. *)
Definition edit_rule (n w : string) (g : option (list string)) (fl : Z) (p : string)
    (r : Rule) : Rule :=
  mkRule (key r) n p w (enabled r) fl (source r) (error r) g (scope r) (apply_genre r).

Section MoreMethods.
Context {RT : Runtime}.
#[local] Existing Instances M_ret M_bind.

(** [toggle_selected_rule]; [idx] is the selected row, if any. *)
Definition toggle_selected_rule (idx : option nat) : M unit :=
  match idx with
  | None => pass
  | Some i =>
      st ← get_state;
      match rules st !! i with
      | None => raise IndexError
      | Some r =>
          _ ← modify (set_rules (<[i := set_enabled (negb (enabled r)) r]> (rules st)));
          _ ← recompile_all;
          refresh_all
      end
  end.

(** [apply_rule_edit]; the strings are the contents of the entry fields and
    of the pattern box. *)
Definition apply_rule_edit (idx : option nat)
    (name_var why_var genres_var flags_var pattern_txt : string) : M unit :=
  match idx with
  | None => pass
  | Some i =>
      st ← get_state;
      match rules st !! i with
      | None => raise IndexError
      | Some r =>
          let n := if String.eqb (py_strip name_var) "" then name r
                   else py_strip name_var in
          let gs := List.filter (fun x => negb (String.eqb x ""))
                      (py_strip <$> split_comma genres_var) in
          let g := match gs with [] => None | _ => Some gs end in
          let fl := match int_of_str (if String.eqb (py_strip flags_var) "" then "0"
                                      else py_strip flags_var) with
                    | Some z => z
                    | None => 0%Z
                    end in
          _ ← modify (set_rules
                 (<[i := edit_rule n (py_strip why_var) g fl (py_strip pattern_txt) r]>
                    (rules st)));
          _ ← recompile_all;
          refresh_all
      end
  end.

(** [export_rules_pack]; [chosen] is the path the save dialog returns (empty
    when it is cancelled), [now] is [time_string()]. *)
Definition export_rules_pack (chosen now : string) : M unit :=
  if String.eqb chosen "" then pass
  else
    st ← get_state;
    let data : gmap string json :=
      <["rules" := JList (JDict <$> (rule_to_dict <$> rules st))]>
      (<["meta" := JDict (<["generated_at" := JStr now]>
                          (<["name" := JStr "workshop_v27"]> ∅))]> ∅) in
    _ ← modify (set_files (<[chosen := JDict data]> (files st)));
    modify (set_rules_pack_path chosen).

(** [refresh_ignore_list]: the words put in the list box. *)
Definition refresh_ignore_list (st : App) : result (list json) :=
  match ignore_scoped st with
  | Some (JDict d) =>
      let scope_sel := get_current_scope st in
      let words :=
        if String.eqb scope_sel SCOPE_TMP then dict_get_default d SCOPE_TMP (JList [])
        else if String.eqb scope_sel SCOPE_GENRE then
          match dict_get_default d SCOPE_GENRE (JDict ∅) with
          | JDict gm => dict_get_default gm (genre st) (JList [])
          | _ => JList []
          end
        else dict_get_default d SCOPE_GLOBAL (JList []) in
      match words with
      | JList l => Ok (take 500 l)
      | _ => Ok []
      end
  | _ => Raise AttributeError
  end.

(** [update_material_labels]: the colours of the two count labels. *)
Definition update_material_labels (st : App) : string * string :=
  (_color_for_count (Z.of_nat (length (exclude_examples st))) EX_MIN EX_MAX,
   _color_for_count (Z.of_nat (length (keep_examples st))) KEEP_MIN KEEP_MAX).

(** [ensure_workspace_file]; [present] is the answer of [os.path.exists]. *)
Definition DEFAULT_WORKSPACE : gmap string json :=
  <["rules" := JList []]>
  (<["ignore_scoped" := JDict (<[SCOPE_GENRE := JDict ∅]>
       (<[SCOPE_TMP := JList []]> (<[SCOPE_GLOBAL := JList []]> ∅)))]>
  (<["sample_titles" := JList []]>
  (<["keep_examples" := JList []]>
  (<["exclude_examples" := JList []]>
  (<["genre" := JStr "（無選択）"]> ∅))))).

Definition ensure_workspace_file (present : bool) (path : string) : M unit :=
  if String.eqb path "" then pass
  else if present then pass
  else modify (fun st => set_files (<[path := JDict DEFAULT_WORKSPACE]> (files st)) st).

(** [WorkshopApp.__init__]: the attributes as the constructor first sets
    them, and the loading that follows. *)
Definition initial_app (workspace_path rules_pack_path : string)
    (files : gmap string json) : App :=
  mkApp workspace_path rules_pack_path ∅ [] [] [] [] GENRE_UNSELECTED None [] []
        "TMP（試作）" files.

Definition WorkshopApp_init : M unit :=
  st ← get_state;
  _ ← load_workspace (workspace_path st);
  _ ← load_rules_pack (rules_pack_path st);
  st ← get_state;
  match rules st with
  | [] =>
      _ ← modify (set_rules (heuristic_suggestions (exclude_examples st) (ignore_words st)));
      _ ← recompile_all;
      refresh_all
  | _ => pass
  end.

(** [open_workshop_window]: the file is created if it is missing, then the
    window is built on it. *)
Definition open_workshop_window (present : bool) (workspace_path rules_pack_path : string)
    (files : gmap string json) : result unit * App :=
  (_ ← ensure_workspace_file present workspace_path; WorkshopApp_init)
    (initial_app workspace_path rules_pack_path files).

(** What [recompile_all] leaves on one rule: its error and its matcher. *)
Definition compiled_entry (r : Rule) (e : string) (c : option matcher) : Prop :=
  if enabled r && negb (String.eqb (pattern r) "") then
    match re_compile (pattern r) (flags r) with
    | Compiled m => e = "" /\ c = Some m
    | ReError msg => e = msg /\ c = None
    | OtherError _ => False
    end
  else e = "" /\ c = None.

(** The fields a rule pack keeps of a rule. *)
Definition pack_fields (r : Rule) : Rule :=
  set_error "" (set_scope SCOPE_GLOBAL "" r).

End MoreMethods.

(** * Properties *)

Open Scope list_scope.

(** ** Match engine *)

Section MatchProofs.
Context {RT : Runtime}.
Implicit Types (rs : list Rule) (compiled : list (option matcher)).
Implicit Types (hits : list nat) (t : string) (i j k idx : nat).

Lemma scan_rules_first_fire compiled t rs : forall idx hits,
  idx + length rs <= length compiled ->
  scan_rules compiled (JStr t) idx rs hits
  = Ok (bump (first_fire_from compiled t idx rs) hits).
Proof.
  induction rs as [|r rest IH]; intros idx hits Hlen; simpl in *; [done|].
  destruct (compiled !! idx) as [cre|] eqn:Hc.
  - destruct cre as [m|]; [|apply IH; lia].
    destruct (enabled r); simpl; [|apply IH; lia].
    destruct (re_search m t); simpl; [done|apply IH; lia].
  - apply lookup_ge_None in Hc. lia.
Qed.

Lemma first_fire_from_spec compiled t rs : forall pre k,
  first_fire_from compiled t (length pre) rs = Some k <->
  (length pre <= k /\ fires (pre ++ rs) compiled k t = true /\
   forall j, length pre <= j < k -> fires (pre ++ rs) compiled j t = false).
Proof.
  induction rs as [|r rest IH]; intros pre k; simpl.
  - split; [done|]. intros (Hk & Hf & _). unfold fires in Hf.
    rewrite app_nil_r, (lookup_ge_None_2 pre k) in Hf by lia. done.
  - assert (Hhead : fires (pre ++ r :: rest) compiled (length pre) t
        = match compiled !! length pre with
          | Some (Some m) => enabled r && re_search m t
          | _ => false
          end).
    { unfold fires. by rewrite list_lookup_middle. }
    specialize (IH (pre ++ [r]) k).
    rewrite length_app, <- app_assoc in IH. simpl in IH.
    replace (length pre + 1) with (S (length pre)) in IH by lia.
    assert (Hskip : fires (pre ++ r :: rest) compiled (length pre) t = false ->
      (first_fire_from compiled t (S (length pre)) rest = Some k <->
       length pre <= k /\ fires (pre ++ r :: rest) compiled k t = true /\
       forall j, length pre <= j < k -> fires (pre ++ r :: rest) compiled j t = false)).
    { intros Hno. rewrite IH. split.
      - intros (Hk & Hf & Hj). split_and!; [lia|done|].
        intros j Hjk. destruct (decide (j = length pre)) as [->|]; [done|].
        apply Hj. lia.
      - intros (Hk & Hf & Hj). split_and!; [|done|intros j ?; apply Hj; lia].
        destruct (decide (k = length pre)) as [->|]; [congruence|lia]. }
    destruct (compiled !! length pre) as [[m|]|] eqn:Hc; try (by apply Hskip).
    destruct (enabled r && re_search m t) eqn:Hm; [|by apply Hskip].
    split.
    + intros [= <-]. split_and!; [lia|done|intros j ?; lia].
    + intros (Hk & Hf & Hj). f_equal.
      destruct (decide (k = length pre)) as [->|]; [done|].
      rewrite Hj in Hhead by lia. done.
Qed.

Lemma first_fire_first_to_fire rs compiled t i :
  first_fire_from compiled t 0 rs = Some i <-> first_to_fire rs compiled i t = true.
Proof.
  rewrite (first_fire_from_spec compiled t rs [] i). simpl.
  unfold first_to_fire. rewrite andb_true_iff, forallb_forall. split.
  - intros (_ & Hf & Hj). split; [done|].
    intros j Hin. apply in_seq in Hin. rewrite Hj by lia. done.
  - intros (Hf & Hj). split_and!; [lia|done|].
    intros j Hjk. specialize (Hj j). rewrite in_seq in Hj.
    apply negb_true_iff, Hj. lia.
Qed.

Lemma count_titles_foldl rs compiled (ts : list string) : forall hits,
  length rs <= length compiled ->
  count_titles rs compiled (JStr <$> ts) hits
  = Ok (foldl (fun h t => bump (first_fire_from compiled t 0 rs) h) hits ts).
Proof.
  induction ts as [|t ts IH]; intros hits Hlen; simpl; [done|].
  rewrite scan_rules_first_fire by (simpl; lia). by apply IH.
Qed.

Lemma foldl_bump_lookup (w : string -> option nat) (ts : list string) i :
  forall hits,
  foldl (fun h t => bump (w t) h) hits ts !! i
  = (fun n => n + length (List.filter (fun t => bool_decide (w t = Some i)) ts))
      <$> hits !! i.
Proof.
  induction ts as [|t ts IH]; intros hits; simpl.
  - destruct (hits !! i); simpl; f_equal; lia.
  - rewrite IH. case_bool_decide as Hw.
    + rewrite Hw. simpl. rewrite list_lookup_alter_eq.
      destruct (hits !! i); simpl; f_equal; lia.
    + destruct (w t) as [k|]; simpl; [|done].
      rewrite list_lookup_alter_ne by congruence. done.
Qed.

Lemma foldl_bump_length (w : string -> option nat) (ts : list string) :
  forall hits, length (foldl (fun h t => bump (w t) h) hits ts) = length hits.
Proof.
  induction ts as [|t ts IH]; intros hits; simpl; [done|].
  rewrite IH. destruct (w t); simpl; [apply length_alter|done].
Qed.

Lemma filter_ext_length {A} (f g : A -> bool) (l : list A) :
  (forall x, f x = g x) -> length (List.filter f l) = length (List.filter g l).
Proof.
  intros H. induction l as [|x l IH]; simpl; [done|].
  rewrite H. destruct (g x); simpl; congruence.
Qed.

Lemma update_rule_hits_eq rs compiled (titles : list string) :
  length rs <= length compiled ->
  update_rule_hits rs compiled (JStr <$> titles)
  = Ok (first_match_hits rs compiled titles).
Proof.
  intros Hlen. unfold update_rule_hits, first_match_hits.
  rewrite <- fmap_take, count_titles_foldl by done. f_equal.
  apply list_eq. intros i. rewrite foldl_bump_lookup, list_lookup_fmap.
  destruct (decide (i < length rs)) as [Hi|Hi].
  - rewrite lookup_replicate_2, lookup_seq_lt by done. simpl. f_equal.
    apply filter_ext_length. intros t.
    apply eq_true_iff_eq. rewrite bool_decide_eq_true.
    apply first_fire_first_to_fire.
  - rewrite (lookup_ge_None_2 (replicate _ _)) by (rewrite length_replicate; lia).
    rewrite (lookup_ge_None_2 (seq _ _)) by (rewrite length_seq; lia). done.
Qed.

Lemma first_to_fire_unique rs compiled t i j :
  first_to_fire rs compiled i t = true ->
  first_to_fire rs compiled j t = true -> i = j.
Proof.
  unfold first_to_fire. rewrite !andb_true_iff, !forallb_forall.
  intros [Hi Hbi] [Hj Hbj].
  destruct (lt_eq_lt_dec i j) as [[Hlt|Heq]|Hgt]; [|done|].
  - specialize (Hbj i). rewrite in_seq, Hi in Hbj. discriminate Hbj. lia.
  - specialize (Hbi j). rewrite in_seq, Hj in Hbi. discriminate Hbi. lia.
Qed.

(** C1: with a matcher entry for every rule, [update_rule_hits] returns,
    for each rule, the number of titles among the first 3000 on which that
    rule is the first enabled rule with a matcher to match; each title is
    counted once, for that rule only, and a title on which no rule fires is
    counted nowhere. *)
Theorem update_rule_hits_first_match rs compiled (titles : list string) :
  length rs <= length compiled ->
  update_rule_hits rs compiled (JStr <$> titles)
  = Ok (first_match_hits rs compiled titles) /\
  (forall t i j, first_to_fire rs compiled i t = true ->
                 first_to_fire rs compiled j t = true -> i = j).
Proof.
  intros Hlen. split; [by apply update_rule_hits_eq|].
  intros t i j. apply first_to_fire_unique.
Qed.

(** Titles after the first 3000 play no part. *)
Lemma update_rule_hits_cap rs compiled (sample_titles : list json) :
  update_rule_hits rs compiled sample_titles
  = update_rule_hits rs compiled (take 3000 sample_titles).
Proof. unfold update_rule_hits. by rewrite take_take, Nat.min_id. Qed.

Lemma sum_list_alter_S hits : forall k, sum_list (alter S k hits) <= S (sum_list hits).
Proof.
  induction hits as [|h hits IH]; intros [|k]; cbn; try lia.
  specialize (IH k). cbn in IH. lia.
Qed.

Lemma scan_rules_sum compiled (t : json) rs : forall idx hits hits',
  scan_rules compiled t idx rs hits = Ok hits' ->
  sum_list hits' <= S (sum_list hits).
Proof.
  induction rs as [|r rest IH]; intros idx hits hits'; simpl.
  - intros [= <-]. lia.
  - destruct (compiled !! idx) as [[m|]|]; [| apply IH | done].
    destruct (enabled r); simpl; [|apply IH].
    destruct (search_title m t) as [[|]|]; [|apply IH|done].
    intros [= <-]. apply sum_list_alter_S.
Qed.

Lemma count_titles_sum rs compiled (ts : list json) : forall hits hits',
  count_titles rs compiled ts hits = Ok hits' ->
  sum_list hits' <= sum_list hits + length ts.
Proof.
  induction ts as [|t ts IH]; intros hits hits'; simpl.
  - intros [= <-]. lia.
  - destruct (scan_rules compiled t 0 rs hits) as [h1|] eqn:Hs; [|done].
    intros H. apply IH in H. apply scan_rules_sum in Hs. lia.
Qed.

(** Whatever the documents hold, the counters a completed evaluation
    leaves add up to at most the number of titles. *)
Lemma update_rule_hits_sum_any rs compiled (sample_titles : list json) hits :
  update_rule_hits rs compiled sample_titles = Ok hits ->
  sum_list hits <= length sample_titles.
Proof.
  unfold update_rule_hits. intros H. apply count_titles_sum in H.
  rewrite sum_list_replicate, length_take in H. lia.
Qed.

(** C9: with a matcher entry for every rule, the evaluation completes and
    the hit counts of all rules add up to at most the number of titles. *)
Theorem update_rule_hits_sum_le rs compiled (titles : list string) :
  length rs <= length compiled ->
  exists hits,
    update_rule_hits rs compiled (JStr <$> titles) = Ok hits /\
    length hits = length rs /\
    sum_list hits <= length titles.
Proof.
  intros Hlen. exists (first_match_hits rs compiled titles).
  pose proof (update_rule_hits_eq rs compiled titles Hlen) as Heq.
  split_and!; [done| |].
  - unfold first_match_hits. by rewrite length_fmap, length_seq.
  - apply update_rule_hits_sum_any in Heq. by rewrite length_fmap in Heq.
Qed.

End MatchProofs.

(** ** Pattern compiler *)

Section CompileProofs.
Context {RT : Runtime}.
Implicit Types (rs : list Rule) (cs : list (option matcher)) (r : Rule).

Lemma recompile_loop_app (l1 l2 : list Rule) :
  recompile_loop (l1 ++ l2)
  = let '(res1, rs1, cs1) := recompile_loop l1 in
    match res1 with
    | Ok _ => let '(res2, rs2, cs2) := recompile_loop l2 in
              (res2, rs1 ++ rs2, cs1 ++ cs2)
    | Raise e => (Raise e, rs1 ++ l2, cs1)
    end.
Proof.
  induction l1 as [|r l1 IH]; simpl.
  - by destruct (recompile_loop l2) as [[[] ?] ?].
  - destruct (compile_rule (set_error "" r)) as [[r1 c]|e]; [|done].
    rewrite IH. destruct (recompile_loop l1) as [[[[]|e] rs1] cs1]; [|done].
    by destruct (recompile_loop l2) as [[? ?] ?].
Qed.

Lemma recompile_loop_length (l : list Rule) rs cs :
  recompile_loop l = (Ok tt, rs, cs) -> length rs = length l /\ length cs = length l.
Proof.
  revert rs cs. induction l as [|r l IH]; intros rs cs; simpl.
  - by intros [= <- <-].
  - destruct (compile_rule (set_error "" r)) as [[r1 c]|e]; [|done].
    destruct (recompile_loop l) as [[res rs1] cs1].
    intros [= -> <- <-]. destruct (IH rs1 cs1 eq_refl). simpl. lia.
Qed.

Lemma compile_rule_malformed r msg :
  enabled r = true -> pattern r <> "" ->
  re_compile (pattern r) (flags r) = ReError msg ->
  compile_rule (set_error "" r) = Ok (set_error msg r, None).
Proof.
  intros He Hp Hc. unfold compile_rule. simpl. rewrite He, Hc. simpl.
  destruct (String.eqb_spec (pattern r) ""); done.
Qed.

Lemma recompile_loop_malformed (l1 l2 : list Rule) r msg rs1 cs1 res2 rs2 cs2 :
  enabled r = true -> pattern r <> "" ->
  re_compile (pattern r) (flags r) = ReError msg ->
  recompile_loop l1 = (Ok tt, rs1, cs1) ->
  recompile_loop l2 = (res2, rs2, cs2) ->
  recompile_loop (l1 ++ r :: l2)
    = (res2, rs1 ++ set_error msg r :: rs2, cs1 ++ None :: cs2) /\
  recompile_loop (l1 ++ l2) = (res2, rs1 ++ rs2, cs1 ++ cs2).
Proof.
  intros He Hp Hc H1 H2. rewrite !recompile_loop_app, H1. simpl.
  rewrite (compile_rule_malformed r msg), H2; done.
Qed.

(** *** A rule without a matcher does not disturb the others *)

Lemma fires_insert rs1 rs2 cs1 cs2 r i (t : string) :
  length rs1 = length cs1 ->
  fires (rs1 ++ r :: rs2) (cs1 ++ None :: cs2) i t
  = if decide (i < length rs1) then fires (rs1 ++ rs2) (cs1 ++ cs2) i t
    else if decide (i = length rs1) then false
    else fires (rs1 ++ rs2) (cs1 ++ cs2) (pred i) t.
Proof.
  intros Hlen. unfold fires. repeat case_decide.
  - rewrite !(lookup_app_l rs1), !(lookup_app_l cs1) by lia. done.
  - subst i. rewrite list_lookup_middle by done.
    rewrite (list_lookup_middle cs1) by done. done.
  - rewrite !(lookup_app_r rs1), !(lookup_app_r cs1) by lia.
    rewrite <- Hlen.
    replace (i - length rs1) with (S (pred i - length rs1)) by lia. done.
Qed.

Lemma first_to_fire_insert rs1 rs2 cs1 cs2 r i (t : string) :
  length rs1 = length cs1 ->
  first_to_fire (rs1 ++ r :: rs2) (cs1 ++ None :: cs2) i t
  = if decide (i < length rs1) then first_to_fire (rs1 ++ rs2) (cs1 ++ cs2) i t
    else if decide (i = length rs1) then false
    else first_to_fire (rs1 ++ rs2) (cs1 ++ cs2) (pred i) t.
Proof.
  intros Hlen. unfold first_to_fire.
  rewrite fires_insert by done.
  destruct (decide (i < length rs1)) as [Hi|Hi].
  - f_equal. apply eq_true_iff_eq. rewrite !forallb_forall.
    split; intros H j Hj; specialize (H j Hj); apply in_seq in Hj;
      rewrite fires_insert in * by done; by rewrite decide_True in * by lia.
  - destruct (decide (i = length rs1)) as [->|Hne]; [done|].
    f_equal. apply eq_true_iff_eq. rewrite !forallb_forall. split.
    + intros H j Hj. apply in_seq in Hj.
      destruct (decide (j < length rs1)) as [Hj1|Hj1].
      * specialize (H j). rewrite fires_insert, decide_True in H by done.
        apply H, in_seq. lia.
      * specialize (H (S j)). rewrite fires_insert in H by done.
        rewrite decide_False, decide_False in H by lia.
        apply H, in_seq. lia.
    + intros H j Hj. apply in_seq in Hj. rewrite fires_insert by done.
      repeat case_decide; [apply H, in_seq; lia|done|apply H, in_seq; lia].
Qed.

Lemma first_match_hits_insert rs1 rs2 cs1 cs2 r (titles : list string) :
  length rs1 = length cs1 ->
  first_match_hits (rs1 ++ r :: rs2) (cs1 ++ None :: cs2) titles
  = let hits := first_match_hits (rs1 ++ rs2) (cs1 ++ cs2) titles in
    take (length rs1) hits ++ 0 :: drop (length rs1) hits.
Proof.
  intros Hlen. simpl. apply list_eq. intros i.
  assert (Hl : length (first_match_hits (rs1 ++ rs2) (cs1 ++ cs2) titles)
               = length rs1 + length rs2).
  { unfold first_match_hits. by rewrite length_fmap, length_seq, length_app. }
  assert (Hold : forall k, k < length rs1 + length rs2 ->
     first_match_hits (rs1 ++ rs2) (cs1 ++ cs2) titles !! k
     = Some (length (List.filter (first_to_fire (rs1 ++ rs2) (cs1 ++ cs2) k)
                                 (take 3000 titles)))).
  { intros k Hk. unfold first_match_hits.
    rewrite list_lookup_fmap, lookup_seq_lt by (rewrite length_app; lia). done. }
  unfold first_match_hits at 1. rewrite list_lookup_fmap, length_app. simpl.
  destruct (decide (i < length rs1 + S (length rs2))) as [Hi|Hi].
  - rewrite lookup_seq_lt by done. simpl.
    rewrite (filter_ext_length _ _ _ (fun t => first_to_fire_insert rs1 rs2 cs1 cs2 r i t Hlen)).
    destruct (decide (i < length rs1)) as [Hi1|Hi1].
    + rewrite lookup_app_l by (rewrite length_take, Hl; lia).
      rewrite lookup_take_lt by lia. by rewrite Hold by lia.
    + rewrite lookup_app_r by (rewrite length_take, Hl; lia).
      rewrite length_take, Hl.
      replace (length rs1 `min` (length rs1 + length rs2)) with (length rs1) by lia.
      destruct (decide (i = length rs1)) as [->|Hne].
      * rewrite Nat.sub_diag. simpl. f_equal.
        clear. induction (take 3000 titles); simpl; done.
      * replace (i - length rs1) with (S (pred i - length rs1)) by lia. simpl.
        rewrite lookup_drop. replace (length rs1 + (pred i - length rs1)) with (pred i) by lia.
        by rewrite Hold by lia.
  - rewrite (lookup_ge_None_2 (seq _ _)) by (rewrite length_seq; lia). simpl.
    symmetry. apply lookup_ge_None_2.
    rewrite length_app, length_take, Hl. simpl. rewrite length_drop, Hl. lia.
Qed.

(** *** The preview *)

Lemma preview_hit_ok cs (t : string) rs : forall idx,
  idx + length rs <= length cs ->
  exists h, preview_hit cs (JStr t) idx rs = Ok h.
Proof.
  induction rs as [|r rest IH]; intros idx Hlen; simpl in *; [by eexists|].
  destruct (cs !! idx) as [cre|] eqn:Hc.
  - destruct cre as [m|]; [|apply IH; lia].
    destruct (enabled r); simpl; [|apply IH; lia].
    destruct (re_search m t); [by eexists|apply IH; lia].
  - apply lookup_ge_None in Hc. lia.
Qed.

Lemma preview_line_ok rs cs (t : string) :
  length rs <= length cs ->
  exists l, preview_line rs cs (JStr t) = Ok l.
Proof.
  intros Hlen. unfold preview_line.
  destruct (preview_hit_ok cs t rs 0) as [h ->]; [simpl; lia|]. by eexists.
Qed.

Lemma preview_title_lines_ok rs cs (ts : list string) :
  length rs <= length cs ->
  exists tl, preview_title_lines rs cs (JStr <$> ts) = Ok tl.
Proof.
  intros Hlen. induction ts as [|t ts [tl IH]]; [by eexists|].
  rewrite fmap_cons. cbn [preview_title_lines].
  destruct (preview_line_ok rs cs t Hlen) as [l ->].
  rewrite IH. by eexists.
Qed.

Lemma preview_error_lines_listed rs1 rs2 r :
  has_error r = true ->
  length (List.filter has_error rs1) < 20 ->
  exists el,
    preview_error_lines (rs1 ++ r :: rs2) = (NL ++ "[ERROR]")%string :: el /\
    error_line r ∈ el.
Proof.
  intros Hr Hn. unfold preview_error_lines.
  rewrite List.filter_app. simpl. rewrite Hr.
  set (e1 := List.filter has_error rs1) in *.
  set (e2 := List.filter has_error rs2).
  exists (error_line <$> take 20 (e1 ++ r :: e2)). split.
  - by destruct e1.
  - apply list_elem_of_fmap_2, list_elem_of_lookup. exists (length e1).
    rewrite lookup_take_lt by done. by apply list_lookup_middle.
Qed.

Lemma refresh_preview_lists_error rs1 rs2 cs r (titles : list string) :
  length (rs1 ++ r :: rs2) <= length cs ->
  has_error r = true ->
  titles <> [] ->
  length (List.filter has_error rs1) < 20 ->
  exists tl el,
    refresh_preview (rs1 ++ r :: rs2) cs (JStr <$> titles)
    = Ok (join_lines (tl ++ (NL ++ "[ERROR]")%string :: el)) /\
    error_line r ∈ el.
Proof.
  intros Hlen Hr Ht Hn. unfold refresh_preview.
  destruct (preview_title_lines_ok (rs1 ++ r :: rs2) cs
              (take 200 (take 400 titles)) Hlen) as [tl Htl].
  destruct (preview_error_lines_listed rs1 rs2 r Hr Hn) as (el & Hel & Hin).
  exists tl, el. split; [|done].
  rewrite <- !fmap_take, Htl, Hel.
  destruct titles as [|t ts]; done.
Qed.

(** C2 (amended): an enabled rule whose non-empty pattern the engine rejects
    gets the engine's non-empty message as its error and no matcher; it
    stays in the collection; the loop goes on with the following rules as if
    it were absent; it counts no hit and the counts of the other rules are
    those they have without it; and, when there is at least one sample title
    and fewer than 20 rules before it hold an error, the preview lists it in
    its [ERROR] block. *)
Theorem malformed_rule_is_skipped (l1 l2 : list Rule) r msg rs1 cs1 res2 rs2 cs2
    (titles : list string) :
  enabled r = true -> pattern r <> "" ->
  re_compile (pattern r) (flags r) = ReError msg ->
  recompile_loop l1 = (Ok tt, rs1, cs1) ->
  recompile_loop l2 = (res2, rs2, cs2) ->
  msg <> "" /\
  compile_rule (set_error "" r) = Ok (set_error msg r, None) /\
  recompile_loop (l1 ++ r :: l2)
    = (res2, rs1 ++ set_error msg r :: rs2, cs1 ++ None :: cs2) /\
  recompile_loop (l1 ++ l2) = (res2, rs1 ++ rs2, cs1 ++ cs2) /\
  (res2 = Ok tt ->
   (exists hits,
      update_rule_hits (rs1 ++ rs2) (cs1 ++ cs2) (JStr <$> titles) = Ok hits /\
      update_rule_hits (rs1 ++ set_error msg r :: rs2) (cs1 ++ None :: cs2)
                       (JStr <$> titles)
      = Ok (take (length rs1) hits ++ 0 :: drop (length rs1) hits)) /\
   (titles <> [] -> length (List.filter has_error rs1) < 20 ->
    exists tl el,
      refresh_preview (rs1 ++ set_error msg r :: rs2) (cs1 ++ None :: cs2)
                      (JStr <$> titles)
      = Ok (join_lines (tl ++ (NL ++ "[ERROR]")%string :: el)) /\
      error_line (set_error msg r) ∈ el)).
Proof.
  intros He Hp Hc H1 H2.
  pose proof (re_error_msg _ _ _ Hc) as Hmsg.
  destruct (recompile_loop_malformed l1 l2 r msg rs1 cs1 res2 rs2 cs2) as [Ha Hb];
    try done.
  split_and!; try done; [by apply compile_rule_malformed|].
  intros ->.
  destruct (recompile_loop_length _ _ _ H1) as [Hr1 Hc1].
  destruct (recompile_loop_length _ _ _ H2) as [Hr2 Hc2].
  split.
  - exists (first_match_hits (rs1 ++ rs2) (cs1 ++ cs2) titles). split.
    + apply update_rule_hits_eq. rewrite !length_app. lia.
    + rewrite update_rule_hits_eq by (rewrite !length_app; simpl; lia).
      f_equal. apply first_match_hits_insert. lia.
  - intros Ht Hn. apply refresh_preview_lists_error; try done.
    + rewrite !length_app. simpl. lia.
    + unfold has_error. simpl. by destruct (String.eqb_spec msg "").
Qed.

End CompileProofs.

(** A malformed rule between two well-formed ones, on two titles. *)
Lemma malformed_rule_is_skipped_witness :
  let good1 := Rule_new "a" "show" "Show" "" in
  let bad := Rule_new "b" "broken" "(abc" "" in
  let good2 := Rule_new "c" "title" "Title" "" in
  let msg := "missing ), unterminated subpattern at position 0"%string in
  recompile_loop (RT := sample_runtime) [good1; bad; good2]
    = (Ok tt, [good1; set_error msg bad; good2], [Some "Show"; None; Some "Title"]%string) /\
  update_rule_hits (RT := sample_runtime) [good1; set_error msg bad; good2]
    [Some "Show"; None; Some "Title"]%string (JStr <$> ["Show Title 01"; "A Title"]%string)
    = Ok [1; 0; 1].
Proof.
  intros good1 bad good2 msg.
  destruct (malformed_rule_is_skipped (RT := sample_runtime)
              [good1] [good2] bad msg [good1] [Some "Show"%string] (Ok tt)
              [good2] [Some "Title"%string] ["Show Title 01"; "A Title"]%string)
    as (_ & _ & Hloop & _ & Heval); try reflexivity; try discriminate.
  split; [exact Hloop|].
  destruct (Heval eq_refl) as [(hits & Hh & Hh') _].
  vm_compute in Hh. injection Hh as <-. exact Hh'.
Defined.

(** Two rules and three titles: the first rule takes the two titles it
    matches, the second takes none although it matches one of them. *)
Lemma update_rule_hits_first_match_witness :
  update_rule_hits (RT := sample_runtime)
    [Rule_new "a" "show" "Show" ""; Rule_new "b" "one" "01" ""]
    [Some "Show"; Some "01"]%string
    (JStr <$> ["Show Title 01"; "Show Title 02"; "Random Clean Title"]%string)
  = Ok [2; 0].
Proof.
  destruct (update_rule_hits_first_match (RT := sample_runtime)
              [Rule_new "a" "show" "Show" ""; Rule_new "b" "one" "01" ""]
              [Some "Show"; Some "01"]%string
              ["Show Title 01"; "Show Title 02"; "Random Clean Title"]%string)
    as [H _]; [simpl; lia|].
  rewrite H. reflexivity.
Defined.

Lemma update_rule_hits_sum_le_witness :
  exists hits,
    update_rule_hits (RT := sample_runtime)
      [Rule_new "a" "show" "Show" ""; Rule_new "b" "one" "01" ""]
      [Some "Show"; Some "01"]%string
      (JStr <$> ["Show Title 01"; "Show Title 02"; "Random Clean Title"]%string)
    = Ok hits /\ length hits = 2 /\ sum_list hits <= 3.
Proof.
  apply (update_rule_hits_sum_le (RT := sample_runtime)
           [Rule_new "a" "show" "Show" ""; Rule_new "b" "one" "01" ""]
           [Some "Show"; Some "01"]%string
           ["Show Title 01"; "Show Title 02"; "Random Clean Title"]%string).
  simpl. lia.
Defined.

(** C2 as stated fails: with no sample title the preview holds the hint
    about missing samples and no error listing; and with a sample title, a
    malformed rule that comes after 20 others with an error is not listed. *)
Lemma malformed_rule_not_listed :
  let msg := "missing ), unterminated subpattern at position 0"%string in
  let bad := Rule_new "b" "broken" "(abc" "" in
  let late := Rule_new "z" "late" "(xyz" "" in
  (recompile_loop (RT := sample_runtime) [bad] = (Ok tt, [set_error msg bad], [None]) /\
   refresh_preview (RT := sample_runtime) [set_error msg bad] [None] [] = Ok NO_SAMPLES_MSG /\
   contains (error_line (set_error msg bad)) NO_SAMPLES_MSG = false) /\
  (exists text,
     recompile_loop (RT := sample_runtime) (replicate 20 bad ++ [late])
       = (Ok tt, replicate 20 (set_error msg bad) ++ [set_error msg late],
          replicate 21 None) /\
     refresh_preview (RT := sample_runtime)
       (replicate 20 (set_error msg bad) ++ [set_error msg late])
       (replicate 21 None) [JStr "a title"] = Ok text /\
     contains (error_line (set_error msg bad)) text = true /\
     contains (error_line (set_error msg late)) text = false).
Proof.
  intros msg bad late. split.
  - split_and!; vm_compute; reflexivity.
  - eexists. split_and!; [vm_compute; reflexivity..].
Qed.

(** ** Scope resolver *)

Lemma eqb_true_iff (a b : string) : String.eqb a b = true <-> a = b.
Proof. apply String.eqb_eq. Qed.

(** The selected scope is always one of the three keys. *)
Lemma scope_key_from_label_range (label : string) :
  _scope_key_from_label label = SCOPE_TMP \/
  _scope_key_from_label label = SCOPE_GLOBAL \/
  _scope_key_from_label label = SCOPE_GENRE.
Proof.
  unfold _scope_key_from_label, SCOPE_LABELS. simpl.
  repeat match goal with |- context [if ?b then _ else _] => destruct b end; tauto.
Qed.

(** C3: for every rule that has a scope (the rules the workshop builds,
    loads and moves all have one) and every current genre: under TEMPORARY
    the rule is visible iff its scope is TEMPORARY; under GLOBAL iff its
    scope is GLOBAL; under (GENRE, g) iff its scope is GENRE and its
    apply_genre is g; so, for the scope that any label of the selector
    stands for, the rule is visible iff one of the three cases holds.  In
    particular a rule of scope GENRE that applies to "Comics" is visible
    under (GENRE, "Comics") and under none of (GENRE, "Novels"), TEMPORARY
    and GLOBAL. *)
Theorem visible_iff (g : string) (r : Rule) :
  scope r <> "" ->
  (visible SCOPE_TMP g r = true <-> scope r = SCOPE_TMP) /\
  (visible SCOPE_GLOBAL g r = true <-> scope r = SCOPE_GLOBAL) /\
  (visible SCOPE_GENRE g r = true <-> scope r = SCOPE_GENRE /\ apply_genre r = g) /\
  (forall label,
     visible (_scope_key_from_label label) g r = true <->
     (_scope_key_from_label label = SCOPE_TMP /\ scope r = SCOPE_TMP) \/
     (_scope_key_from_label label = SCOPE_GLOBAL /\ scope r = SCOPE_GLOBAL) \/
     (_scope_key_from_label label = SCOPE_GENRE /\
      scope r = SCOPE_GENRE /\ apply_genre r = g)) /\
  (scope r = SCOPE_GENRE -> apply_genre r = "Comics" ->
   visible SCOPE_GENRE "Comics" r = true /\
   visible SCOPE_GENRE "Novels" r = false /\
   visible SCOPE_TMP g r = false /\
   visible SCOPE_GLOBAL g r = false).
Proof.
  intros Hne.
  assert (Hthree : forall g',
    (visible SCOPE_TMP g' r = true <-> scope r = SCOPE_TMP) /\
    (visible SCOPE_GLOBAL g' r = true <-> scope r = SCOPE_GLOBAL) /\
    (visible SCOPE_GENRE g' r = true <-> scope r = SCOPE_GENRE /\ apply_genre r = g')).
  { intros g'. unfold visible. change (String.eqb SCOPE_TMP SCOPE_TMP) with true.
    change (String.eqb SCOPE_GLOBAL SCOPE_TMP) with false.
    change (String.eqb SCOPE_GLOBAL SCOPE_GENRE) with false.
    change (String.eqb SCOPE_GENRE SCOPE_TMP) with false.
    change (String.eqb SCOPE_GENRE SCOPE_GENRE) with true. cbv iota.
    destruct (String.eqb_spec (scope r) "") as [He|_]; [done|].
    rewrite andb_true_iff, !eqb_true_iff. tauto. }
  destruct (Hthree g) as (Ht & Hg & Hn).
  split_and!; try done.
  - intros label.
    destruct (scope_key_from_label_range label) as [-> | [-> | ->]];
      rewrite ?Ht, ?Hg, ?Hn; split; try tauto;
      intros [[? ?] | [[? ?] | [? ?]]]; try done.
  - intros Hs Ha.
    destruct (Hthree "Comics") as (_ & _ & Hc).
    destruct (Hthree "Novels") as (_ & _ & Hv).
    split_and!.
    + by apply Hc.
    + apply not_true_is_false. rewrite Hv, Ha. by intros [_ ?].
    + apply not_true_is_false. rewrite Ht, Hs. done.
    + apply not_true_is_false. rewrite Hg, Hs. done.
Qed.

(** The example of the specification. *)
Lemma visible_iff_witness :
  let r := mkRule "k" "n" "" "" true 0 "WORKSHOP" "" None SCOPE_GENRE "Comics" in
  visible SCOPE_GENRE "Comics" r = true /\
  visible SCOPE_GENRE "Novels" r = false /\
  visible SCOPE_TMP "Comics" r = false /\
  visible SCOPE_GLOBAL "Comics" r = false.
Proof.
  intros r.
  destruct (visible_iff "Comics" r) as (_ & _ & _ & _ & H); [discriminate|].
  apply H; reflexivity.
Defined.

(** ** Serialization of one rule *)

Lemma lookup_insert_if (c : bool) (k k' : string) (v : json) (d : gmap string json) :
  insert_if c k v d !! k' = if c && bool_decide (k = k') then Some v else d !! k'.
Proof.
  unfold insert_if. destruct c; simpl; [|done].
  case_bool_decide as H; [subst; apply lookup_insert_eq|by apply lookup_insert_ne].
Qed.

(** C5 as stated fails: a rule built with the defaults has scope GLOBAL,
    and its record carries the scope key. *)
Lemma rule_to_dict_scope_counterexample :
  let r := Rule_new "tail_number" "tail" "x" "" in
  genres r = None /\ scope r = SCOPE_GLOBAL /\ apply_genre r = "" /\ error r = "" /\
  rule_to_dict r !! "scope" = Some (JStr SCOPE_GLOBAL).
Proof. repeat split. Qed.

(** C5 (amended): the record of a rule with no genre tags, scope GLOBAL,
    empty apply_genre and empty error has no genres, apply_genre or error
    key; it has the scope key, with the value GLOBAL. *)
Theorem rule_to_dict_omits_empty (r : Rule) :
  genres_truthy (genres r) = false -> scope r = SCOPE_GLOBAL ->
  apply_genre r = "" -> error r = "" ->
  rule_to_dict r !! "genres" = None /\
  rule_to_dict r !! "apply_genre" = None /\
  rule_to_dict r !! "error" = None /\
  rule_to_dict r !! "scope" = Some (JStr SCOPE_GLOBAL) /\
  dom (rule_to_dict r)
  = list_to_set ["key"; "name"; "pattern"; "why"; "enabled"; "flags"; "source"; "scope"]%string.
Proof.
  intros Hg Hs Ha He. unfold rule_to_dict. rewrite Hg, Hs, Ha, He. simpl.
  split_and!; try done; rewrite !dom_insert_L, dom_empty_L; set_solver.
Qed.

Lemma rule_to_dict_omits_empty_witness :
  let r := Rule_new "tail_number" "tail" "x" "" in
  rule_to_dict r !! "genres" = None /\
  rule_to_dict r !! "apply_genre" = None /\
  rule_to_dict r !! "error" = None /\
  rule_to_dict r !! "scope" = Some (JStr SCOPE_GLOBAL) /\
  dom (rule_to_dict r)
  = list_to_set ["key"; "name"; "pattern"; "why"; "enabled"; "flags"; "source"; "scope"]%string.
Proof.
  intros r. apply (rule_to_dict_omits_empty r); reflexivity.
Defined.

(** The scope key is left out exactly when the scope is empty. *)
Lemma rule_to_dict_scope_key (r : Rule) :
  rule_to_dict r !! "scope"
  = if String.eqb (scope r) "" then None else Some (JStr (scope r)).
Proof.
  unfold rule_to_dict, insert_if.
  destruct (genres_truthy _), (String.eqb (scope r) ""),
    (String.eqb (apply_genre r) ""), (String.eqb (error r) ""); reflexivity.
Qed.

(** ** Operations on the application state *)

Section StateProofs.
Context {RT : Runtime}.
Implicit Types (st : App) (r : Rule).

Ltac run := unfold mbind, M_bind, mret, M_ret, get_state, modify, lift, raise, pass.

(** What [save_workspace] leaves alone. *)
Lemma save_workspace_frame st :
  let st' := (save_workspace st).2 in
  rules st' = rules st /\ ignore_scoped st' = ignore_scoped st /\
  genre st' = genre st /\ sample_titles st' = sample_titles st /\
  exclude_examples st' = exclude_examples st /\
  keep_examples st' = keep_examples st /\ compiled st' = compiled st /\
  workspace_path st' = workspace_path st /\ scope_var st' = scope_var st.
Proof.
  unfold save_workspace. run. simpl.
  destruct (String.eqb (workspace_path st) ""); [simpl; split_and!; reflexivity|].
  destruct (ignore_scoped st) as [isc|] eqn:His;
    [|simpl; split_and!; try reflexivity; done].
  destruct isc; try (simpl; split_and!; try reflexivity; done).
  destruct (py_list _); simpl; split_and!; try reflexivity; done.
Qed.

(** C8: promoting the selected rule to GLOBAL sets its scope to GLOBAL and
    its apply_genre to empty, whatever they were, and changes no other field
    and no other rule; on a rule that is already GLOBAL with an empty
    apply_genre it changes nothing in the collection. *)
Theorem promote_to_global_effect st (i : nat) r :
  rules st !! i = Some r ->
  let st' := (promote_selected_rule_to_global (Some i) st).2 in
  let r' := set_scope SCOPE_GLOBAL "" r in
  rules st' = <[i := r']> (rules st) /\
  rules st' !! i = Some r' /\
  scope r' = SCOPE_GLOBAL /\ apply_genre r' = "" /\
  (key r', name r', pattern r', why r', enabled r', flags r', source r',
   error r', genres r')
  = (key r, name r, pattern r, why r, enabled r, flags r, source r,
     error r, genres r) /\
  (scope r = SCOPE_GLOBAL -> apply_genre r = "" -> r' = r /\ rules st' = rules st).
Proof.
  intros Hr. simpl. unfold promote_selected_rule_to_global. run. simpl.
  rewrite Hr. simpl.
  match goal with |- context [save_workspace ?s] =>
    destruct (save_workspace_frame s) as (Hrs & _) end.
  simpl in Hrs. rewrite Hrs.
  split_and!; try done.
  - apply list_lookup_insert_eq. by eapply lookup_lt_Some.
  - intros Hs Ha. assert (set_scope SCOPE_GLOBAL "" r = r) as ->.
    { destruct r; simpl in *; by subst. }
    split; [done|]. by apply list_insert_id.
Qed.

Lemma filter_scope_other (rs : list Rule) (sc : string) :
  sc <> SCOPE_TMP ->
  List.filter (fun r => String.eqb (scope r) sc)
    (List.filter (fun r => negb (String.eqb (scope r) SCOPE_TMP)) rs)
  = List.filter (fun r => String.eqb (scope r) sc) rs.
Proof.
  intros Hsc. induction rs as [|r rs IH]; simpl; [done|].
  destruct (String.eqb_spec (scope r) SCOPE_TMP) as [He|He]; simpl.
  - destruct (String.eqb_spec (scope r) sc); [congruence|exact IH].
  - by rewrite IH.
Qed.

(** C7: once confirmed, clearing the temporary scope keeps exactly the
    rules whose scope is not TEMPORARY, in their order, so every GLOBAL and
    GENRE rule stays; it empties the TEMPORARY ignore-word bucket and leaves
    every other bucket, GLOBAL and the per-genre mapping among them, as it
    was. *)
Theorem clear_tmp_scope_effect st (d : gmap string json) :
  ignore_scoped st = Some (JDict d) ->
  let st' := (clear_tmp_scope true st).2 in
  rules st' = List.filter (fun r => negb (String.eqb (scope r) SCOPE_TMP)) (rules st) /\
  (forall r, r ∈ rules st' <-> r ∈ rules st /\ scope r <> SCOPE_TMP) /\
  (forall sc, sc <> SCOPE_TMP ->
     List.filter (fun r => String.eqb (scope r) sc) (rules st')
     = List.filter (fun r => String.eqb (scope r) sc) (rules st)) /\
  (exists d', ignore_scoped st' = Some (JDict d') /\
     d' !! SCOPE_TMP = Some (JList []) /\
     d' !! SCOPE_GLOBAL = d !! SCOPE_GLOBAL /\
     d' !! SCOPE_GENRE = d !! SCOPE_GENRE /\
     forall k, k <> SCOPE_TMP -> d' !! k = d !! k).
Proof.
  intros Hd. simpl. unfold clear_tmp_scope. run. simpl. rewrite Hd. simpl.
  match goal with |- context [save_workspace ?s] =>
    destruct (save_workspace_frame s) as (Hrs & His & _) end.
  simpl in Hrs, His. rewrite Hrs, His.
  split_and!.
  - done.
  - intros r. rewrite !list_elem_of_In, filter_In, negb_true_iff.
    destruct (String.eqb_spec (scope r) SCOPE_TMP); intuition congruence.
  - intros sc Hsc. by apply filter_scope_other.
  - eexists. split; [done|]. split_and!.
    + apply lookup_insert_eq.
    + by apply lookup_insert_ne.
    + by apply lookup_insert_ne.
    + intros k Hk. by apply lookup_insert_ne.
Qed.

(** Declining the confirmation leaves the state as it is. *)
Lemma clear_tmp_scope_declined st : clear_tmp_scope false st = (Ok tt, st).
Proof. done. Qed.

End StateProofs.

(** ** Loading a rule pack *)

Section LoaderProofs.
Context {RT : Runtime}.
Implicit Types (st : App) (r : Rule) (it : gmap string json).

Ltac run := unfold mbind, M_bind, mret, M_ret, get_state, modify, lift, raise, pass.

Lemma refresh_all_state st : (refresh_all st).2 = st.
Proof.
  unfold refresh_all. run.
  destruct (update_rule_hits _ _ _); [|done].
  destruct (refresh_preview _ _ _); done.
Qed.

Lemma recompile_all_rules st :
  rules (recompile_all st).2 = (recompile_loop (rules st)).1.2.
Proof.
  unfold recompile_all. by destruct (recompile_loop (rules st)) as [[res rs] cs].
Qed.

Lemma compile_rule_fields r r' c :
  compile_rule r = Ok (r', c) ->
  key r' = key r /\ scope r' = scope r /\ apply_genre r' = apply_genre r.
Proof.
  unfold compile_rule. destruct (_ || _); [by intros [= <- _]|].
  destruct (re_compile _ _); [by intros [= <- _]|by intros [= <- _]|done].
Qed.

(** Recompiling touches the error field only. *)
Lemma recompile_loop_fields (rs : list Rule) :
  Forall2 (fun r r' => key r' = key r /\ scope r' = scope r /\
                       apply_genre r' = apply_genre r)
          rs (recompile_loop rs).1.2.
Proof.
  induction rs as [|r rs IH]; simpl; [constructor|].
  destruct (compile_rule (set_error "" r)) as [[r1 c]|e] eqn:Hc; simpl.
  - destruct (recompile_loop rs) as [[res rs'] cs]. simpl in *.
    constructor; [|done]. by apply compile_rule_fields in Hc.
  - constructor; [done|]. clear. induction rs; by constructor.
Qed.

Lemma recompile_loop_global (rs : list Rule) :
  Forall global_scoped rs -> Forall global_scoped (recompile_loop rs).1.2.
Proof.
  intros H. pose proof (recompile_loop_fields rs) as HF.
  induction HF as [|r r' rs rs' (_ & Hs & Ha) _ IH]; [constructor|].
  inversion_clear H as [|? ? [H1 H2] H3].
  constructor; [|by apply IH]. unfold global_scoped. by rewrite Hs, Ha.
Qed.

Lemma pack_rule_global n it r : pack_rule n it = Ok r -> global_scoped r.
Proof.
  unfold pack_rule, rule_from_item. destruct (py_int _); [|done].
  by intros [= <-].
Qed.

Lemma load_rules_loop_global (items : list json) : forall acc rs,
  Forall global_scoped acc ->
  load_rules_loop pack_rule items acc = Ok rs -> Forall global_scoped rs.
Proof.
  induction items as [|x items IH]; intros acc rs Hacc; simpl.
  - by intros [= <-].
  - destruct x; try (by apply IH).
    destruct (pack_rule (length acc) d) as [r|] eqn:Hr; [|done].
    apply IH. apply Forall_app. split; [done|].
    constructor; [by eapply pack_rule_global|constructor].
Qed.

Lemma load_rules_global (data : json) rs :
  load_rules pack_rule data = Ok rs -> Forall global_scoped rs.
Proof.
  destruct data; simpl; try (by intros [= <-]; constructor).
  by apply load_rules_loop_global.
Qed.

Lemma load_rules_pack_state st path :
  (load_rules_pack path st).2 = st \/
  Forall global_scoped (rules (load_rules_pack path st).2).
Proof.
  unfold load_rules_pack. run. simpl.
  destruct (files st !! path) as [data|]; [|by left].
  assert (Hgo : forall rules_data,
    (match load_rules pack_rule rules_data with
     | Ok a =>
         match recompile_all (set_rules a (set_rules_pack_path path st)) with
         | (Ok _, st') => refresh_all st'
         | (Raise e, st') => (Raise e, st')
         end
     | Raise e => (Raise e, st)
     end).2 = st \/
    Forall global_scoped
      (rules (match load_rules pack_rule rules_data with
       | Ok a =>
           match recompile_all (set_rules a (set_rules_pack_path path st)) with
           | (Ok _, st') => refresh_all st'
           | (Raise e, st') => (Raise e, st')
           end
       | Raise e => (Raise e, st)
       end).2)).
  { intros rules_data.
    destruct (load_rules pack_rule rules_data) as [rs|] eqn:Hl; [|by left].
    right. apply load_rules_global in Hl.
    pose proof (recompile_all_rules (set_rules rs (set_rules_pack_path path st))) as Hr.
    destruct (recompile_all _) as [[[]|e] st']; simpl in *.
    - rewrite refresh_all_state, Hr. by apply recompile_loop_global.
    - rewrite Hr. by apply recompile_loop_global. }
  destruct data; try apply Hgo. by left.
Qed.

(** C10: every rule the rule-pack loader builds has scope GLOBAL and an
    empty apply_genre, whatever the record holds: one record, a whole
    document, and the rules the application holds after [load_rules_pack]
    (which either loads nothing and leaves the state as it was, or installs
    such rules); the workspace loader instead takes both fields from the
    record. *)
Theorem load_rules_pack_scope_global st path :
  (forall n it r, pack_rule n it = Ok r ->
     scope r = SCOPE_GLOBAL /\ apply_genre r = "") /\
  (forall data rs, load_rules pack_rule data = Ok rs ->
     Forall (fun r => scope r = SCOPE_GLOBAL /\ apply_genre r = "") rs) /\
  ((load_rules_pack path st).2 = st \/
   Forall (fun r => scope r = SCOPE_GLOBAL /\ apply_genre r = "")
          (rules (load_rules_pack path st).2)) /\
  (forall n it r, workspace_rule n it = Ok r ->
     scope r = py_str (py_or (dict_get it "scope") (JStr SCOPE_GLOBAL)) /\
     apply_genre r = py_str (py_or (dict_get it "apply_genre") (JStr ""))).
Proof.
  split_and!.
  - apply pack_rule_global.
  - apply load_rules_global.
  - apply load_rules_pack_state.
  - intros n it r. unfold workspace_rule.
    destruct (rule_from_item n it); [|done]. by intros [= <-].
Qed.

End LoaderProofs.

(** ** Saving and loading a workspace *)

Section RoundTrip.
Context {RT : Runtime}.
Implicit Types (st : App) (r : Rule) (d : gmap string json).

Ltac run := unfold mbind, M_bind, mret, M_ret, get_state, modify, lift, raise, pass.

Lemma eqb_false (s : string) : s <> "" -> String.eqb s "" = false.
Proof. by destruct (String.eqb_spec s ""). Qed.

Lemma py_str_or_nonempty (s dflt : string) :
  s <> "" -> py_str (py_or (JStr s) (JStr dflt)) = s.
Proof. intros H. unfold py_or. simpl. by rewrite eqb_false. Qed.

Lemma py_str_or_empty_default (s : string) :
  py_str (py_or (JStr s) (JStr "")) = s.
Proof.
  unfold py_or. simpl. destruct (String.eqb_spec s "") as [->|]; done.
Qed.

Lemma py_or_list (l : list json) : py_or (JList l) (JList []) = JList l.
Proof. by destruct l. Qed.

Lemma py_int_or_flags (z : Z) : py_int (py_or (JInt z) (JInt 0)) = Ok z.
Proof.
  unfold py_or. simpl. destruct (Z.eqb_spec z 0) as [->|]; done.
Qed.

Ltac dict_cases r :=
  unfold rule_to_dict, insert_if;
  destruct (genres_truthy (genres r)), (String.eqb (scope r) ""),
    (String.eqb (apply_genre r) ""), (String.eqb (error r) ""); reflexivity.

Lemma rule_to_dict_key r : rule_to_dict r !! "key" = Some (JStr (key r)).
Proof. dict_cases r. Qed.
Lemma rule_to_dict_name r : rule_to_dict r !! "name" = Some (JStr (name r)).
Proof. dict_cases r. Qed.
Lemma rule_to_dict_pattern r : rule_to_dict r !! "pattern" = Some (JStr (pattern r)).
Proof. dict_cases r. Qed.
Lemma rule_to_dict_why r : rule_to_dict r !! "why" = Some (JStr (why r)).
Proof. dict_cases r. Qed.
Lemma rule_to_dict_enabled r : rule_to_dict r !! "enabled" = Some (JBool (enabled r)).
Proof. dict_cases r. Qed.
Lemma rule_to_dict_flags r : rule_to_dict r !! "flags" = Some (JInt (flags r)).
Proof. dict_cases r. Qed.
Lemma rule_to_dict_source r : rule_to_dict r !! "source" = Some (JStr (source r)).
Proof. dict_cases r. Qed.
Lemma rule_to_dict_genres r :
  rule_to_dict r !! "genres"
  = if genres_truthy (genres r) then Some (genres_json (genres r)) else None.
Proof. dict_cases r. Qed.
Lemma rule_to_dict_scope r :
  rule_to_dict r !! "scope"
  = if String.eqb (scope r) "" then None else Some (JStr (scope r)).
Proof. dict_cases r. Qed.
Lemma rule_to_dict_apply_genre r :
  rule_to_dict r !! "apply_genre"
  = if String.eqb (apply_genre r) "" then None else Some (JStr (apply_genre r)).
Proof. dict_cases r. Qed.
Lemma rule_to_dict_error r :
  rule_to_dict r !! "error"
  = if String.eqb (error r) "" then None else Some (JStr (error r)).
Proof. dict_cases r. Qed.

Lemma filter_nonblank_id (l : list string) :
  Forall (fun s => is_blank s = false) l ->
  List.filter (fun s => negb (is_blank s)) (py_str <$> (JStr <$> l)) = l.
Proof.
  induction 1 as [|s l Hs _ IH]; [done|].
  rewrite !fmap_cons. cbn [List.filter py_str]. rewrite Hs. cbn [negb].
  by rewrite IH.
Qed.

Lemma parse_genres_rule_to_dict r :
  wf_genres (genres r) -> parse_genres (rule_to_dict r) = genres r.
Proof.
  unfold parse_genres, dict_get. rewrite rule_to_dict_genres.
  destruct (genres r) as [[|s l]|]; simpl; [by intros []| |done].
  intros [_ H]. f_equal. by apply (filter_nonblank_id (s :: l)).
Qed.

(** Reading back the record of a well-formed rule gives the rule. *)
Lemma workspace_rule_rule_to_dict n r :
  wf_rule r -> workspace_rule n (rule_to_dict r) = Ok r.
Proof.
  intros (Hk & Hn & Hs & Hsc & Hg).
  unfold workspace_rule, rule_from_item, dict_get, dict_get_default.
  rewrite rule_to_dict_flags, rule_to_dict_key, rule_to_dict_name,
    rule_to_dict_pattern, rule_to_dict_why, rule_to_dict_enabled,
    rule_to_dict_source, rule_to_dict_error, rule_to_dict_scope,
    rule_to_dict_apply_genre.
  fold (dict_get (rule_to_dict r) "genres").
  change (match dict_get (rule_to_dict r) "genres" with
          | JList l => Some (List.filter (fun s => negb (is_blank s)) (py_str <$> l))
          | _ => None
          end) with (parse_genres (rule_to_dict r)).
  rewrite parse_genres_rule_to_dict by done. simpl.
  rewrite py_int_or_flags. simpl.
  rewrite (py_str_or_nonempty (key r)), (py_str_or_nonempty (name r)),
    (py_str_or_nonempty (source r)), !py_str_or_empty_default by done.
  rewrite (eqb_false (scope r)) by done. simpl.
  rewrite py_str_or_nonempty by done.
  destruct (String.eqb_spec (error r) "") as [He|He];
    destruct (String.eqb_spec (apply_genre r) "") as [Ha|Ha]; simpl;
    rewrite ?py_str_or_empty_default; destruct r; simpl in *; by subst.
Qed.

Lemma load_rules_loop_rule_to_dict (rs : list Rule) : forall acc,
  Forall wf_rule rs ->
  load_rules_loop workspace_rule (JDict <$> (rule_to_dict <$> rs)) acc
  = Ok (acc ++ rs).
Proof.
  induction rs as [|r rs IH]; intros acc Hwf; simpl.
  - by rewrite app_nil_r.
  - inversion_clear Hwf as [|? ? Hr Hrs].
    rewrite workspace_rule_rule_to_dict by done.
    rewrite IH by done. by rewrite <- app_assoc.
Qed.

Lemma load_rules_rule_to_dict (rs : list Rule) :
  Forall wf_rule rs ->
  load_rules workspace_rule
    (py_or (JList (JDict <$> (rule_to_dict <$> rs))) (JList [])) = Ok rs.
Proof.
  intros Hwf. rewrite py_or_list. simpl.
  by rewrite load_rules_loop_rule_to_dict.
Qed.

Lemma save_workspace_wf st d gl :
  workspace_path st <> "" -> ignore_scoped st = Some (JDict d) ->
  d !! SCOPE_GLOBAL = Some (JList gl) ->
  save_workspace st
  = (Ok tt, set_workspace (workspace_document st gl)
              (set_files (<[workspace_path st := JDict (workspace_document st gl)]>
                            (files st)) st)).
Proof.
  intros Hp Hi Hg. unfold save_workspace. run. simpl.
  rewrite (eqb_false _ Hp), Hi. unfold dict_get_default. rewrite Hg. simpl.
  unfold workspace_document. by rewrite Hi.
Qed.

Lemma document_genre st gl :
  dict_get (workspace_document st gl) "genre" = JStr (genre st).
Proof. unfold dict_get, workspace_document. by simplify_map_eq. Qed.
Lemma document_ignore_scoped st gl :
  dict_get (workspace_document st gl) "ignore_scoped" = default JNull (ignore_scoped st).
Proof. unfold dict_get, workspace_document. by simplify_map_eq. Qed.
Lemma document_exclude_examples st gl :
  dict_get (workspace_document st gl) "exclude_examples" = JList (exclude_examples st).
Proof. unfold dict_get, workspace_document. by simplify_map_eq. Qed.
Lemma document_keep_examples st gl :
  dict_get (workspace_document st gl) "keep_examples" = JList (keep_examples st).
Proof. unfold dict_get, workspace_document. by simplify_map_eq. Qed.
Lemma document_sample_titles st gl :
  dict_get (workspace_document st gl) "sample_titles" = JList (sample_titles st).
Proof. unfold dict_get, workspace_document. by simplify_map_eq. Qed.
Lemma document_rules st gl :
  dict_get (workspace_document st gl) "rules"
  = JList (JDict <$> (rule_to_dict <$> rules st)).
Proof. unfold dict_get, workspace_document. by simplify_map_eq. Qed.

Lemma ensure_scope_id (rs : list Rule) :
  Forall wf_rule rs -> ensure_scope <$> rs = rs.
Proof.
  induction 1 as [|r rs (_ & _ & _ & Hsc & _) _ IH]; [done|].
  rewrite fmap_cons, IH. unfold ensure_scope. by rewrite eqb_false.
Qed.

Lemma ensure_buckets_id d gl tl gd :
  d !! SCOPE_GLOBAL = Some (JList gl) -> d !! SCOPE_TMP = Some (JList tl) ->
  d !! SCOPE_GENRE = Some (JDict gd) ->
  ensure_buckets d = d.
Proof.
  intros Hg Ht Hd. unfold ensure_buckets. unfold ensure_list at 2. rewrite Hg.
  unfold ensure_list. rewrite Ht. unfold ensure_dict. by rewrite Hd.
Qed.

(** Loading the document of a well-formed workspace into any application:
    the state in place when the widgets are refreshed. *)
Lemma load_document st st0 path legacy d gl tl gd :
  files st !! path = Some (JDict (workspace_document st0 legacy)) ->
  genre st0 <> "" -> ignore_scoped st0 = Some (JDict d) ->
  d !! SCOPE_GLOBAL = Some (JList gl) -> d !! SCOPE_TMP = Some (JList tl) ->
  d !! SCOPE_GENRE = Some (JDict gd) ->
  Forall wf_rule (rules st0) ->
  load_workspace path st
  = refresh_all
      (mkApp path (rules_pack_path st) (workspace_document st0 legacy)
             (sample_titles st0) (exclude_examples st0) (keep_examples st0)
             (ignore_words st) (genre st0) (ignore_scoped st0) (rules st0)
             (compiled st) (scope_var st) (files st)).
Proof.
  intros Hfile Hgen Hi Hg Ht Hd Hwf.
  unfold load_workspace. run. simpl. rewrite Hfile. simpl.
  rewrite document_genre, document_ignore_scoped, document_exclude_examples,
    document_keep_examples, document_sample_titles, document_rules.
  rewrite Hi. simpl.
  rewrite !py_or_list, py_str_or_nonempty by done. simpl.
  rewrite load_rules_loop_rule_to_dict by done. simpl.
  rewrite ensure_scope_id by done.
  rewrite (ensure_buckets_id d gl tl gd) by done.
  rewrite (insert_id (workspace_document st0 legacy) "ignore_scoped" (JDict d)).
  - done.
  - unfold workspace_document. rewrite Hi. by simplify_map_eq.
Qed.


(** The outcome of [refresh_all]. *)
Lemma update_rule_hits_unprepared r rs (t : json) (ts : list json) :
  update_rule_hits (r :: rs) [] (t :: ts) = Raise IndexError.
Proof. done. Qed.





End RoundTrip.

(** ** Examples on sample workspaces *)

Lemma sample_app_wf : wf_workspace (sample_app rules_each_scope).
Proof.
  split_and!; [discriminate|discriminate| |].
  - exists sample_scoped, [JStr "raw"; JStr "scan"], [JStr "sample"],
      (<["Comics" := JList [JStr "vol"]]> ∅).
    split_and!; reflexivity.
  - repeat constructor; try discriminate.
Defined.



(** Three TEMPORARY rules and two GLOBAL rules: the two GLOBAL rules
    remain, the TEMPORARY bucket is emptied, the other buckets stay. *)
Lemma clear_tmp_scope_effect_witness :
  let st' := (clear_tmp_scope true (sample_app rules_three_tmp)).2 in
  key <$> rules st' = ["g1"; "g2"]%string /\
  exists d', ignore_scoped st' = Some (JDict d') /\
    d' !! SCOPE_TMP = Some (JList []) /\
    d' !! SCOPE_GLOBAL = Some (JList [JStr "raw"; JStr "scan"]) /\
    d' !! SCOPE_GENRE = Some (JDict (<["Comics" := JList [JStr "vol"]]> ∅)).
Proof.
  intros st'.
  destruct (clear_tmp_scope_effect (RT := sample_runtime)
              (sample_app rules_three_tmp) sample_scoped eq_refl)
    as (Hr & _ & _ & d' & Hi & Ht & Hg & Hd & _).
  split.
  - subst st'. rewrite Hr. reflexivity.
  - exists d'. split_and!; [exact Hi|exact Ht|exact Hg|exact Hd].
Defined.

(** Promoting the first rule, a TEMPORARY one, and then the second, which
    is GLOBAL already. *)
Lemma promote_to_global_effect_witness :
  let st := sample_app rules_three_tmp in
  rules (promote_selected_rule_to_global (Some 0) st).2 !! 0
    = Some (sample_rule "t1" "draft 1" "Show" SCOPE_GLOBAL "") /\
  rules (promote_selected_rule_to_global (Some 1) st).2 = rules st.
Proof.
  intros st. split.
  - destruct (promote_to_global_effect (RT := sample_runtime) st 0
                (sample_rule "t1" "draft 1" "Show" SCOPE_TMP "") eq_refl)
      as (_ & H & _).
    exact H.
  - destruct (promote_to_global_effect (RT := sample_runtime) st 1
                (sample_rule "g1" "common 1" "Title" SCOPE_GLOBAL "") eq_refl)
      as (_ & _ & _ & _ & _ & H).
    exact (proj2 (H eq_refl eq_refl)).
Defined.

(** A record that carries a scope and a genre: the rule-pack loader drops
    both, the workspace loader keeps both. *)
Lemma load_rules_pack_scope_global_witness :
  let it : gmap string json :=
    <["apply_genre" := JStr "Comics"]> (<["scope" := JStr SCOPE_GENRE]>
      (<["pattern" := JStr "01"]> (<["key" := JStr "custom_2"]> ∅))) in
  (exists r, pack_rule (RT := sample_runtime) 0 it = Ok r /\
             scope r = SCOPE_GLOBAL /\ apply_genre r = "") /\
  (exists r, workspace_rule (RT := sample_runtime) 0 it = Ok r /\
             scope r = SCOPE_GENRE /\ apply_genre r = "Comics").
Proof.
  intros it.
  destruct (load_rules_pack_scope_global (RT := sample_runtime)
              (sample_app []) "rules_pack.json") as (Hp & _ & _ & Hw).
  split.
  - eexists. split; [reflexivity|]. apply (Hp 0 it). reflexivity.
  - eexists. split; [reflexivity|]. apply (Hw 0 it). reflexivity.
Defined.

(** ** Keys of the rules *)

(** C6 fails on the code: two new rules, the first of them deleted, and a
    third new rule give two rules with the key custom_1. *)
Theorem add_new_rule_duplicate_key :
  let step1 := add_new_rule (RT := sample_runtime) emptied_app in
  let step2 := add_new_rule step1.2 in
  let step3 := delete_selected_rule (Some 0) true step2.2 in
  let step4 := add_new_rule step3.2 in
  (step1.1, step2.1, step3.1, step4.1) = (Ok tt, Ok tt, Ok tt, Ok tt) /\
  key <$> rules step2.2 = ["custom_0"; "custom_1"]%string /\
  key <$> rules step3.2 = ["custom_1"]%string /\
  key <$> rules step4.2 = ["custom_1"; "custom_1"]%string /\
  ~ NoDup (key <$> rules step4.2).
Proof.
  intros step1 step2 step3 step4. subst step1 step2 step3 step4.
  split_and!; try (vm_compute; reflexivity).
  intros H. vm_compute in H. apply NoDup_cons in H as [Hin _].
  apply Hin. constructor.
Qed.

(** *** The sibling operations keep the keys apart *)

Section KeyProofs.
Context {RT : Runtime}.
Implicit Types (st : App) (rs : list Rule).

Ltac run := unfold mbind, M_bind, mret, M_ret, get_state, modify, lift, raise, pass.

Lemma recompile_loop_keys rs : key <$> (recompile_loop rs).1.2 = key <$> rs.
Proof.
  pose proof (recompile_loop_fields rs) as HF.
  induction HF as [|r r' l l' (Hk & _) _ IH]; [done|].
  by rewrite !fmap_cons, Hk, IH.
Qed.

Lemma heuristic_suggestions_keys (examples : list json) (ignore_words : list string) :
  NoDup (key <$> heuristic_suggestions examples ignore_words).
Proof.
  unfold heuristic_suggestions.
  destruct (re_escape <$> _); simpl; apply (bool_decide_unpack _); by vm_compute.
Qed.

Lemma foldl_append_new (existing : gset string) (base : list Rule) : forall rs,
  foldl (fun acc r => if bool_decide (key r ∈ existing) then acc else acc ++ [r])
        rs base
  = rs ++ filter (fun r => key r ∉ existing) base.
Proof.
  induction base as [|r base IH]; intros rs; simpl.
  - by rewrite app_nil_r.
  - rewrite IH. case_bool_decide as Hin.
    + rewrite filter_cons_False; [done|]. by intros ?.
    + rewrite filter_cons_True by done. by rewrite <- app_assoc.
Qed.

Lemma add_heuristics_rules st :
  key <$> rules (add_heuristics st).2
  = key <$> (rules st ++
      filter (fun r => key r ∉ (list_to_set (key <$> rules st) : gset string))
             (heuristic_suggestions (exclude_examples st) (ignore_words st))).
Proof.
  unfold add_heuristics. run.
  generalize (heuristic_suggestions (exclude_examples st) (ignore_words st)).
  intros base. simpl. rewrite foldl_append_new.
  match goal with |- context [recompile_all ?s] =>
    pose proof (recompile_all_rules s) as Hr;
    destruct (recompile_all s) as [[[]|e] st'] end; simpl in *.
  - by rewrite refresh_all_state, Hr, recompile_loop_keys.
  - by rewrite Hr, recompile_loop_keys.
Qed.

(** [add_heuristics] never adds a key the collection already holds. *)
Lemma add_heuristics_keys_unique st :
  NoDup (key <$> rules st) -> NoDup (key <$> rules (add_heuristics st).2).
Proof.
  intros Hnd. rewrite add_heuristics_rules, fmap_app.
  apply NoDup_app. split_and!; [done| |].
  - intros k Hk Hk'. apply list_elem_of_fmap in Hk' as (r & -> & Hr).
    apply list_elem_of_filter in Hr as [Hnew _].
    apply Hnew. by apply elem_of_list_to_set.
  - eapply sublist_NoDup; [apply heuristic_suggestions_keys|].
    apply fmap_sublist, sublist_filter.
Qed.

End KeyProofs.

(** * Further properties *)

(** ** Recompiling and evaluating *)

Section RecompileProofs.
Context {RT : Runtime}.
Implicit Types (rs : list Rule) (cs : list (option matcher)) (r : Rule).

Lemma set_error_twice (e e' : string) r : set_error e (set_error e' r) = set_error e r.
Proof. done. Qed.

Lemma compile_rule_entry r r1 c :
  compile_rule (set_error "" r) = Ok (r1, c) ->
  exists e, r1 = set_error e r /\ compiled_entry r e c.
Proof.
  unfold compile_rule, compiled_entry. simpl.
  destruct (enabled r); simpl.
  - destruct (String.eqb (pattern r) ""); simpl.
    + intros [= <- <-]. by exists "".
    + destruct (re_compile (pattern r) (flags r)) as [m|msg|e]; [| |done].
      * intros [= <- <-]. by exists "".
      * intros [= <- <-]. by exists msg.
  - intros [= <- <-]. by exists "".
Qed.

Lemma recompile_loop_entry rs : forall rs' cs i r,
  recompile_loop rs = (Ok tt, rs', cs) -> rs !! i = Some r ->
  exists e c, rs' !! i = Some (set_error e r) /\ cs !! i = Some c /\
              compiled_entry r e c.
Proof.
  induction rs as [|r0 rs IH]; intros rs' cs i r; simpl; [done|].
  destruct (compile_rule (set_error "" r0)) as [[r1 c0]|] eqn:Hc; [|done].
  destruct (recompile_loop rs) as [[res rs1] cs1] eqn:Hrec.
  intros [= -> <- <-]. destruct i as [|i]; simpl.
  - intros [= ->]. apply compile_rule_entry in Hc as (e & -> & He).
    by exists e, c0.
  - intros Hi. by apply (IH rs1 cs1 i r).
Qed.

Lemma recompile_loop_again rs : forall rs' cs,
  recompile_loop rs = (Ok tt, rs', cs) -> recompile_loop rs' = (Ok tt, rs', cs).
Proof.
  induction rs as [|r0 rs IH]; intros rs' cs; simpl; [by intros [= <- <-]|].
  destruct (compile_rule (set_error "" r0)) as [[r1 c0]|] eqn:Hc; [|done].
  destruct (recompile_loop rs) as [[res rs1] cs1] eqn:Hrec.
  intros [= -> <- <-]. simpl.
  destruct (compile_rule_entry _ _ _ Hc) as (e & -> & _).
  rewrite set_error_twice, Hc. by rewrite (IH rs1 cs1).
Qed.

(** X1: when [recompile_all] completes, the matcher list has one entry per
    rule, no rule is added or removed, and recompiling once more changes
    neither the rules nor the matchers. *)
Theorem recompile_all_stable rs rs' cs :
  recompile_loop rs = (Ok tt, rs', cs) ->
  length rs' = length rs /\ length cs = length rs /\
  key <$> rs' = key <$> rs /\
  recompile_loop rs' = (Ok tt, rs', cs).
Proof.
  intros H. destruct (recompile_loop_length _ _ _ H) as [H1 H2].
  split_and!; [done|done| |by apply (recompile_loop_again rs)].
  pose proof (recompile_loop_keys rs) as Hk. by rewrite H in Hk.
Qed.

(** X2: when [recompile_all] completes, a rule that is disabled or has no
    pattern ends with an empty error and no matcher, even if it held an
    error before; an enabled rule with a pattern ends with an empty error
    and its matcher when the pattern compiles, and with the engine's message
    and no matcher when the engine rejects it; nothing else of the rule
    changes. *)
Theorem recompile_all_entry rs rs' cs i r :
  recompile_loop rs = (Ok tt, rs', cs) -> rs !! i = Some r ->
  exists e c,
    rs' !! i = Some (set_error e r) /\ cs !! i = Some c /\
    (if enabled r && negb (String.eqb (pattern r) "") then
       match re_compile (pattern r) (flags r) with
       | Compiled m => e = "" /\ c = Some m
       | ReError msg => e = msg /\ c = None
       | OtherError _ => False
       end
     else e = "" /\ c = None).
Proof. apply recompile_loop_entry. Qed.

Lemma no_matcher_no_hit rs cs (titles : list string) i :
  (forall t, fires rs cs i t = false) ->
  i < length rs ->
  first_match_hits rs cs titles !! i = Some 0.
Proof.
  intros Hf Hi. unfold first_match_hits.
  rewrite list_lookup_fmap, lookup_seq_lt by done. simpl. f_equal.
  rewrite (filter_ext_length _ (fun _ => false)).
  - generalize (take 3000 titles). intros l. induction l; simpl; done.
  - intros t. unfold first_to_fire. by rewrite Hf.
Qed.

(** X3: after a completed [recompile_all], evaluating the rules on any list
    of titles completes, with one counter per rule, and every rule that is
    disabled, has no pattern or holds an error counts no hit. *)
Theorem evaluate_after_recompile rs rs' cs (titles : list string) :
  recompile_loop rs = (Ok tt, rs', cs) ->
  exists hits,
    update_rule_hits rs' cs (JStr <$> titles) = Ok hits /\
    length hits = length rs /\
    forall i r', rs' !! i = Some r' ->
      enabled r' = false \/ pattern r' = "" \/ error r' <> "" ->
      hits !! i = Some 0.
Proof.
  intros H. destruct (recompile_loop_length _ _ _ H) as [H1 H2].
  exists (first_match_hits rs' cs titles). split_and!.
  - apply update_rule_hits_eq. lia.
  - unfold first_match_hits. by rewrite length_fmap, length_seq.
  - intros i r' Hi Hbad. apply no_matcher_no_hit; [|by eapply lookup_lt_Some].
    intros t. unfold fires. rewrite Hi.
    destruct (lookup_lt_is_Some_2 rs i) as [r Hr];
      [rewrite <- H1; by eapply lookup_lt_Some|].
    destruct (recompile_loop_entry _ _ _ _ _ H Hr) as (e & c & Hr' & Hc & He).
    rewrite Hc. rewrite Hr' in Hi. injection Hi as <-. simpl in *.
    unfold compiled_entry in He.
    destruct (enabled r); simpl in *; [|by destruct c].
    destruct (String.eqb_spec (pattern r) "") as [Hp|Hp]; simpl in *.
    + by destruct He as [_ ->].
    + destruct (re_compile _ _); [|by destruct He as [_ ->]|done].
      destruct He as [-> ->]. by destruct Hbad as [?|[?|?]].
Qed.

Lemma scan_rules_enabled_only cs (t : json) rs1 rs2 :
  Forall2 (fun r r' => enabled r = enabled r') rs1 rs2 ->
  forall idx hits, scan_rules cs t idx rs1 hits = scan_rules cs t idx rs2 hits.
Proof.
  induction 1 as [|r r' l l' Hr _ IH]; intros idx hits; simpl; [done|].
  rewrite Hr. destruct (cs !! idx) as [[m|]|]; [|by apply IH|done].
  destruct (enabled r'); simpl; [|by apply IH].
  destruct (search_title m t) as [[|]|]; [done|by apply IH|done].
Qed.

(** X4: the hit counts read nothing of a rule but its enabled flag (and the
    matcher list): two collections that agree on the enabled flags, rule by
    rule, get the same counts, whatever their scopes, genres, names or
    keys.  A rule hidden by the scope selection counts like any other. *)
Theorem update_rule_hits_enabled_only rs1 rs2 cs (sample_titles : list json) :
  Forall2 (fun r r' => enabled r = enabled r') rs1 rs2 ->
  update_rule_hits rs1 cs sample_titles = update_rule_hits rs2 cs sample_titles.
Proof.
  intros HF. unfold update_rule_hits. rewrite (Forall2_length _ _ _ HF).
  generalize (replicate (length rs2) 0).
  induction (take 3000 sample_titles) as [|t ts IH]; intros hits; simpl; [done|].
  rewrite (scan_rules_enabled_only cs t rs1 rs2 HF).
  destruct (scan_rules cs t 0 rs2 hits); [apply IH|done].
Qed.

Lemma preview_hit_first_fire cs (t : string) rs : forall pre : list Rule,
  length pre + length rs <= length cs ->
  preview_hit cs (JStr t) (length pre) rs
  = Ok (match first_fire_from cs t (length pre) rs with
        | Some i => String.append " -> " (default "" (name <$> (pre ++ rs) !! i))
        | None => ""
        end).
Proof.
  induction rs as [|r rest IH]; intros pre Hlen; simpl in *; [done|].
  specialize (IH (pre ++ [r])). rewrite length_app, <- app_assoc in IH. simpl in IH.
  replace (length pre + 1) with (S (length pre)) in IH by lia.
  destruct (cs !! length pre) as [[m|]|] eqn:Hc.
  - destruct (enabled r); simpl; [|apply IH; lia].
    destruct (re_search m t); [|apply IH; lia].
    by rewrite list_lookup_middle.
  - apply IH; lia.
  - apply lookup_ge_None in Hc. lia.
Qed.

(** X5: the preview and the hit counts agree on the rule responsible for a
    title: the line of a title is the title followed by the name of the
    first rule to fire on it, and the bare title when no rule fires. *)
Theorem preview_line_first_match rs cs (t : string) :
  length rs <= length cs ->
  (forall i, first_to_fire rs cs i t = false) /\ preview_line rs cs (JStr t) = Ok t \/
  exists i r, first_to_fire rs cs i t = true /\ rs !! i = Some r /\
              preview_line rs cs (JStr t) = Ok (t ++ " -> " ++ name r)%string.
Proof.
  intros Hlen. unfold preview_line.
  pose proof (preview_hit_first_fire cs t rs [] ltac:(simpl; lia)) as Hp.
  simpl in Hp. rewrite Hp. clear Hp.
  destruct (first_fire_from cs t 0 rs) as [i|] eqn:Hff.
  - right. apply first_fire_first_to_fire in Hff as Hfirst.
    assert (is_Some (rs !! i)) as [r Hr].
    { unfold first_to_fire, fires in Hfirst. destruct (rs !! i); [by eexists|done]. }
    exists i, r. rewrite Hr. done.
  - left. split.
    + intros i. destruct (first_to_fire rs cs i t) eqn:Hf; [|done].
      apply first_fire_first_to_fire in Hf. congruence.
    + f_equal. clear. induction t as [|a t IH]; [done|].
      change (String a (t +:+ "") = String a t). by f_equal.
Qed.

End RecompileProofs.

(** ** Editing the collection *)

Section EditProofs.
Context {RT : Runtime}.
Implicit Types (st : App) (rs : list Rule) (cs : list (option matcher)) (r : Rule).

Ltac run := unfold mbind, M_bind, mret, M_ret, get_state, modify, lift, raise, pass.

Lemma recompile_all_run st res rs' cs :
  recompile_loop (rules st) = (res, rs', cs) ->
  recompile_all st = (res, set_compiled cs (set_rules rs' st)).
Proof. unfold recompile_all. by intros ->. Qed.

Lemma refresh_all_run st : exists res, refresh_all st = (res, st).
Proof.
  unfold refresh_all. run.
  destruct (update_rule_hits _ _ _); [|by eexists].
  destruct (refresh_preview _ _ _); by eexists.
Qed.

Lemma recompile_loop_shape rs : forall rs' cs,
  recompile_loop rs = (Ok tt, rs', cs) ->
  Forall2 (fun a b => set_error "" a = set_error "" b) rs' rs.
Proof.
  induction rs as [|r0 rs IH]; intros rs' cs; simpl; [intros [= <- <-]; constructor|].
  destruct (compile_rule (set_error "" r0)) as [[r1 c0]|] eqn:Hc; [|done].
  destruct (recompile_loop rs) as [[res rs1] cs1] eqn:Hrec.
  intros [= -> <- <-].
  destruct (compile_rule_entry _ _ _ Hc) as (e & -> & _).
  constructor; [done|]. by apply (IH rs1 cs1).
Qed.

(** Recompiling reads nothing of a rule's error. *)
Lemma recompile_loop_ext rs1 rs2 :
  Forall2 (fun a b => set_error "" a = set_error "" b) rs1 rs2 ->
  forall rs' cs, recompile_loop rs2 = (Ok tt, rs', cs) ->
                 recompile_loop rs1 = (Ok tt, rs', cs).
Proof.
  induction 1 as [|a b l k Hab _ IH]; intros rs' cs; simpl; [done|].
  rewrite Hab.
  destruct (compile_rule (set_error "" b)) as [[r1 c0]|]; [|done].
  destruct (recompile_loop k) as [[res rs1'] cs1] eqn:Hrec.
  intros [= -> <- <-]. by rewrite (IH rs1' cs1).
Qed.

Lemma set_rules_twice st rs rs' : set_rules rs' (set_rules rs st) = set_rules rs' st.
Proof. done. Qed.

Lemma toggle_run st i r rs1 cs1 :
  rules st !! i = Some r ->
  recompile_loop (<[i := set_enabled (negb (enabled r)) r]> (rules st))
    = (Ok tt, rs1, cs1) ->
  (toggle_selected_rule (Some i) st).2 = set_compiled cs1 (set_rules rs1 st).
Proof.
  intros Hr H1. unfold toggle_selected_rule. run. simpl. rewrite Hr.
  rewrite (recompile_all_run _ (Ok tt) rs1 cs1) by done.
  match goal with |- context [refresh_all ?s] =>
    destruct (refresh_all_run s) as [res ->] end.
  done.
Qed.

(** X6: toggling the selected rule flips its enabled flag and no other;
    toggling it again gives back the rules and the matchers that
    recompiling the collection gives. *)
Theorem toggle_twice st i r rs1 cs1 rs' cs' :
  rules st !! i = Some r ->
  recompile_loop (<[i := set_enabled (negb (enabled r)) r]> (rules st))
    = (Ok tt, rs1, cs1) ->
  recompile_loop (rules st) = (Ok tt, rs', cs') ->
  let st1 := (toggle_selected_rule (Some i) st).2 in
  let st2 := (toggle_selected_rule (Some i) st1).2 in
  enabled <$> rules st1 = <[i := negb (enabled r)]> (enabled <$> rules st) /\
  key <$> rules st1 = key <$> rules st /\
  rules st2 = rs' /\ compiled st2 = cs'.
Proof.
  intros Hr H1 H0. cbv zeta.
  rewrite (toggle_run st i r rs1 cs1) by done.
  pose proof (recompile_loop_shape _ _ _ H1) as Hshape.
  assert (Hi : i < length (rules st)) by by eapply lookup_lt_Some.
  destruct (recompile_loop_entry _ _ _ i _ H1
              (list_lookup_insert_eq _ _ _ Hi)) as (e & c & Hr1 & _ & _).
  split_and!.
  - simpl.
    transitivity (enabled <$> <[i := set_enabled (negb (enabled r)) r]> (rules st));
      [|by rewrite list_fmap_insert].
    clear -Hshape. induction Hshape as [|a b l k Hab _ IH]; [done|].
    rewrite !fmap_cons, IH. f_equal.
    by apply (f_equal enabled) in Hab.
  - simpl. pose proof (recompile_loop_keys
      (<[i := set_enabled (negb (enabled r)) r]> (rules st))) as Hk.
    rewrite H1 in Hk. simpl in Hk. rewrite Hk, list_fmap_insert. simpl.
    apply list_insert_id. by rewrite list_lookup_fmap, Hr.
  - assert (Hagain : recompile_loop
        (<[i := set_enabled (negb (enabled (set_error e
                  (set_enabled (negb (enabled r)) r))))
                (set_error e (set_enabled (negb (enabled r)) r))]> rs1)
        = (Ok tt, rs', cs')).
    { apply (recompile_loop_ext _ (rules st)); [|done].
      replace (rules st) with
        (<[i := r]> (<[i := set_enabled (negb (enabled r)) r]> (rules st)))
        by (rewrite list_insert_insert_eq; by apply list_insert_id).
      apply Forall2_insert; [done|].
      destruct r. simpl. by rewrite negb_involutive. }
    by rewrite (toggle_run (set_compiled cs1 (set_rules rs1 st)) i
                  (set_error e (set_enabled (negb (enabled r)) r)) rs' cs' Hr1 Hagain).
  - assert (Hagain : recompile_loop
        (<[i := set_enabled (negb (enabled (set_error e
                  (set_enabled (negb (enabled r)) r))))
                (set_error e (set_enabled (negb (enabled r)) r))]> rs1)
        = (Ok tt, rs', cs')).
    { apply (recompile_loop_ext _ (rules st)); [|done].
      replace (rules st) with
        (<[i := r]> (<[i := set_enabled (negb (enabled r)) r]> (rules st)))
        by (rewrite list_insert_insert_eq; by apply list_insert_id).
      apply Forall2_insert; [done|].
      destruct r. simpl. by rewrite negb_involutive. }
    by rewrite (toggle_run (set_compiled cs1 (set_rules rs1 st)) i
                  (set_error e (set_enabled (negb (enabled r)) r)) rs' cs' Hr1 Hagain).
Qed.

Lemma fmap_delete_list {A B} (f : A -> B) (l : list A) : forall i,
  f <$> delete i l = delete i (f <$> l).
Proof.
  induction l as [|x l IH]; intros [|i]; simpl; try done. by rewrite <- IH.
Qed.

Lemma delete_run st i r :
  rules st !! i = Some r ->
  rules (delete_selected_rule (Some i) true st).2
  = (recompile_loop (delete i (rules st))).1.2.
Proof.
  intros Hr. unfold delete_selected_rule. run. simpl. rewrite Hr.
  match goal with |- context [recompile_all ?s] =>
    pose proof (recompile_all_rules s) as Hrec;
    destruct (recompile_all s) as [[[]|e] st'] end; simpl in *; [|done].
  by rewrite refresh_all_state.
Qed.

(** X7: deleting the selected rule removes the key at that row and keeps
    the other keys in their order, so keys that were distinct stay
    distinct; a row past the end raises IndexError and changes nothing, and
    so does nothing a declined confirmation or an empty selection. *)
Theorem delete_selected_rule_effect st i :
  match rules st !! i with
  | Some r =>
      key <$> rules (delete_selected_rule (Some i) true st).2
        = delete i (key <$> rules st) /\
      length (rules (delete_selected_rule (Some i) true st).2)
        = pred (length (rules st)) /\
      (NoDup (key <$> rules st) ->
       NoDup (key <$> rules (delete_selected_rule (Some i) true st).2))
  | None => delete_selected_rule (Some i) true st = (Raise IndexError, st)
  end /\
  delete_selected_rule (Some i) false st = (Ok tt, st) /\
  (forall c, delete_selected_rule None c st = (Ok tt, st)).
Proof.
  split_and!; [|done|done].
  destruct (rules st !! i) as [r|] eqn:Hr.
  - rewrite (delete_run st i r Hr).
    assert (Hk : key <$> (recompile_loop (delete i (rules st))).1.2
                 = delete i (key <$> rules st))
      by (by rewrite recompile_loop_keys, fmap_delete_list).
    split_and!; [done| |].
    + apply (f_equal length) in Hk. rewrite !length_fmap in Hk.
      rewrite Hk, length_delete by (by rewrite list_lookup_fmap, Hr).
      rewrite length_fmap. lia.
    + intros Hnd. rewrite Hk. eapply sublist_NoDup; [done|apply sublist_delete].
  - unfold delete_selected_rule. run. simpl. by rewrite Hr.
Qed.

(** X8: promoting the selected rule to the current genre gives it the scope
    GENRE and the current genre; the rule is then shown under the GENRE
    selection for that genre and under neither of the other selections. *)
Theorem promote_to_genre_effect st i r :
  rules st !! i = Some r ->
  let st' := (promote_selected_rule_to_genre (Some i) st).2 in
  let r' := set_scope SCOPE_GENRE (genre st) r in
  rules st' = <[i := r']> (rules st) /\ genre st' = genre st /\
  visible SCOPE_GENRE (genre st') r' = true /\
  (forall g, visible SCOPE_TMP g r' = false /\ visible SCOPE_GLOBAL g r' = false).
Proof.
  intros Hr. cbv zeta. unfold promote_selected_rule_to_genre. run. simpl.
  rewrite Hr. simpl.
  match goal with |- context [save_workspace ?s] =>
    destruct (save_workspace_frame s) as (Hrs & _ & Hg & _) end.
  simpl in Hrs, Hg. rewrite Hrs, Hg.
  split_and!; try done.
  unfold visible. simpl. by rewrite String.eqb_refl.
Qed.

Lemma visible_current_scope (label g : string) r :
  scope r = _scope_key_from_label label ->
  apply_genre r = (if String.eqb (scope r) SCOPE_GENRE then g else "") ->
  visible (_scope_key_from_label label) g r = true.
Proof.
  intros Hs Ha. unfold visible. rewrite Ha, Hs.
  destruct (scope_key_from_label_range label) as [-> | [-> | ->]]; simpl;
    by rewrite ?String.eqb_refl.
Qed.

(** X9: when the rules in place recompile, the new rule comes last, with
    the key custom_n for the n rules in place, an empty pattern and no
    matcher; it has the selected scope (and the current genre under the
    GENRE selection), so it is shown under the current selection. *)
Theorem add_new_rule_effect st rs' cs' :
  recompile_loop (rules st) = (Ok tt, rs', cs') ->
  let st' := (add_new_rule st).2 in
  let sc := get_current_scope st in
  let new := mkRule ("custom_" ++ pretty (length (rules st)))
                    ("新規ルール" ++ pretty (length (rules st))) "" "" true 0
                    "WORKSHOP" "" None sc
                    (if String.eqb sc SCOPE_GENRE then genre st else "") in
  rules st' = rs' ++ [new] /\ compiled st' = cs' ++ [None] /\
  visible (get_current_scope st') (genre st') new = true.
Proof.
  intros H0. cbv zeta.
  set (blank := mkRule ("custom_" ++ pretty (length (rules st)))
                  ("新規ルール" ++ pretty (length (rules st))) "" "" true 0
                  "WORKSHOP" "" None SCOPE_GLOBAL "").
  assert (Hrec : recompile_loop (rules st ++ [blank])
                 = (Ok tt, rs' ++ [blank], cs' ++ [None])).
  { rewrite recompile_loop_app, H0. done. }
  destruct (recompile_loop_length _ _ _ H0) as [Hl _].
  unfold add_new_rule. run. simpl. fold blank.
  rewrite (recompile_all_run _ (Ok tt) (rs' ++ [blank]) (cs' ++ [None])) by done.
  simpl. rewrite last_snoc. simpl.
  rewrite length_app. simpl. replace (pred (length rs' + 1)) with (length rs' + 0) by lia.
  rewrite insert_app_r. simpl.
  match goal with |- context [save_workspace ?s] =>
    destruct (save_workspace_frame s) as (Hrs & _ & Hg & _ & _ & _ & Hc & _ & Hv);
    destruct (save_workspace s) as [[[]|e] st1] end; simpl in *.
  - match goal with |- context [refresh_all ?s] =>
      destruct (refresh_all_run s) as [res ->] end. simpl.
    rewrite Hrs, Hc. unfold get_current_scope in *. rewrite Hg, Hv.
    split_and!; try done. by apply visible_current_scope.
  - rewrite Hrs, Hc. unfold get_current_scope in *. rewrite Hg, Hv.
    split_and!; try done. by apply visible_current_scope.
Qed.

Lemma filter_all_out {A} (P : A -> Prop) `{forall x, Decision (P x)} (l : list A) :
  (forall x, x ∈ l -> ~ P x) -> filter P l = [].
Proof.
  induction l as [|x l IH]; intros Hl; [done|].
  rewrite filter_cons_False by (apply Hl; left).
  apply IH. intros y Hy. apply Hl. by right.
Qed.

Lemma add_heuristics_frame st :
  exclude_examples (add_heuristics st).2 = exclude_examples st /\
  ignore_words (add_heuristics st).2 = ignore_words st.
Proof.
  unfold add_heuristics. run. simpl.
  match goal with |- context [recompile_all ?s] =>
    unfold recompile_all; destruct (recompile_loop (rules s)) as [[[[]|e] rs'] cs] end;
    simpl; [|done].
  match goal with |- context [refresh_all ?s] =>
    destruct (refresh_all_run s) as [res ->] end. done.
Qed.

(** X10: [add_heuristics] keeps the keys in place, in their order, and adds
    after them only starter keys that were not there, so distinct keys stay
    distinct; run a second time it adds nothing. *)
Theorem add_heuristics_keys st :
  let st1 := (add_heuristics st).2 in
  let st2 := (add_heuristics st1).2 in
  (exists added,
     key <$> rules st1 = (key <$> rules st) ++ added /\
     (forall k, k ∈ added -> k ∉ key <$> rules st) /\
     added `sublist_of`
       key <$> heuristic_suggestions (exclude_examples st) (ignore_words st)) /\
  (NoDup (key <$> rules st) -> NoDup (key <$> rules st1)) /\
  key <$> rules st2 = key <$> rules st1.
Proof.
  cbv zeta. split_and!.
  - eexists. rewrite add_heuristics_rules, fmap_app. split_and!; [done| |].
    + intros k Hk Hin. apply list_elem_of_fmap in Hk as (r & -> & Hr).
      apply list_elem_of_filter in Hr as [Hnew _].
      apply Hnew. by apply elem_of_list_to_set.
    + apply fmap_sublist, sublist_filter.
  - apply add_heuristics_keys_unique.
  - rewrite (add_heuristics_rules (add_heuristics st).2).
    destruct (add_heuristics_frame st) as [-> ->].
    rewrite fmap_app.
    match goal with |- _ ++ (key <$> ?l) = _ => assert (l = []) as -> end;
      [|by rewrite app_nil_r].
    apply filter_all_out. intros r Hr Hnew. apply Hnew.
    apply elem_of_list_to_set. rewrite add_heuristics_rules, fmap_app.
    apply elem_of_app.
    destruct (decide (key r ∈ key <$> rules st)) as [Hin|Hout]; [by left|right].
    apply list_elem_of_fmap. exists r. split; [done|].
    apply list_elem_of_filter. split; [|done].
    intros Hin. apply Hout. by apply elem_of_list_to_set in Hin.
Qed.

Lemma clear_tmp_scope_rules st :
  rules (clear_tmp_scope true st).2
  = List.filter (fun r => negb (String.eqb (scope r) SCOPE_TMP)) (rules st).
Proof.
  unfold clear_tmp_scope. run. simpl.
  destruct (ignore_scoped st) as [[]|]; try done.
  match goal with |- context [save_workspace ?s] =>
    destruct (save_workspace_frame s) as (Hrs & _) end.
  simpl in Hrs. by rewrite Hrs.
Qed.

Lemma filter_idemp {A} (f : A -> bool) (l : list A) :
  List.filter f (List.filter f l) = List.filter f l.
Proof.
  induction l as [|x l IH]; simpl; [done|].
  destruct (f x) eqn:Hx; simpl; by rewrite ?Hx, IH.
Qed.

(** X11: once the temporary scope is cleared, no rule is shown under the
    TEMPORARY selection, whatever the current genre; clearing again removes
    nothing more. This holds also when the ignore-word store is missing. *)
Theorem clear_tmp_scope_hides st (g : string) :
  let st' := (clear_tmp_scope true st).2 in
  Forall (fun r => visible SCOPE_TMP g r = false) (rules st') /\
  rules (clear_tmp_scope true st').2 = rules st'.
Proof.
  cbv zeta. rewrite !clear_tmp_scope_rules. split; [|apply filter_idemp].
  apply Forall_forall. intros r Hr. apply list_elem_of_In, filter_In in Hr as [_ Hr].
  apply negb_true_iff in Hr. unfold visible. simpl.
  destruct (String.eqb (scope r) ""); done.
Qed.

(** X12: after the temporary scope is cleared, the ignore-word list box is
    empty under the TEMPORARY selection and shows what it showed before
    under the other selections. *)
Theorem refresh_ignore_list_after_clear st (d : gmap string json) :
  ignore_scoped st = Some (JDict d) ->
  refresh_ignore_list (clear_tmp_scope true st).2
  = if String.eqb (get_current_scope st) SCOPE_TMP then Ok []
    else refresh_ignore_list st.
Proof.
  intros Hd. unfold clear_tmp_scope. run. simpl. rewrite Hd. simpl.
  match goal with |- context [save_workspace ?s] =>
    destruct (save_workspace_frame s) as (_ & His & Hg & _ & _ & _ & _ & _ & Hv) end.
  simpl in His, Hg, Hv. unfold refresh_ignore_list, get_current_scope.
  rewrite His, Hg, Hv, Hd. unfold dict_get_default.
  destruct (scope_key_from_label_range (scope_var st)) as [-> | [-> | ->]]; simpl.
  - by rewrite lookup_insert_eq.
  - by rewrite lookup_insert_ne.
  - by rewrite lookup_insert_ne.
Qed.

End EditProofs.

(** ** Loading documents *)

Section LoadProofs.
Context {RT : Runtime}.
Implicit Types (st : App) (rs : list Rule) (r : Rule) (d data : gmap string json).

Ltac run := unfold mbind, M_bind, mret, M_ret, get_state, modify, lift, raise, pass.

Ltac load_step :=
  match goal with
  | |- context [match py_list ?x with _ => _ end] => destruct (py_list x) eqn:?
  | |- context [match load_rules ?a ?b with _ => _ end] =>
      destruct (load_rules a b) eqn:?
  | |- context [refresh_all ?s] =>
      let res := fresh "res" in let H := fresh "Hres" in
      destruct (refresh_all_run s) as [res H]; rewrite H; clear H
  end; simpl.

Lemma ensure_list_same (k : string) d : exists l, ensure_list k d !! k = Some (JList l).
Proof.
  unfold ensure_list. destruct (d !! k) as [[]|] eqn:Hk;
    try (eexists; apply lookup_insert_eq).
  by eexists.
Qed.

Lemma ensure_list_other (k k' : string) d : k <> k' -> ensure_list k d !! k' = d !! k'.
Proof.
  intros Hne. unfold ensure_list.
  destruct (d !! k) as [[]|]; try done; by apply lookup_insert_ne.
Qed.

Lemma ensure_dict_same (k : string) d : exists gd, ensure_dict k d !! k = Some (JDict gd).
Proof.
  unfold ensure_dict. destruct (d !! k) as [[]|] eqn:Hk;
    try (eexists; apply lookup_insert_eq).
  by eexists.
Qed.

Lemma ensure_dict_other (k k' : string) d : k <> k' -> ensure_dict k d !! k' = d !! k'.
Proof.
  intros Hne. unfold ensure_dict.
  destruct (d !! k) as [[]|]; try done; by apply lookup_insert_ne.
Qed.

Lemma ensure_buckets_wf d : wf_scoped (Some (JDict (ensure_buckets d))).
Proof.
  unfold ensure_buckets.
  destruct (ensure_list_same SCOPE_GLOBAL d) as [gl Hgl].
  destruct (ensure_list_same SCOPE_TMP (ensure_list SCOPE_GLOBAL d)) as [tl Htl].
  destruct (ensure_dict_same SCOPE_GENRE
              (ensure_list SCOPE_TMP (ensure_list SCOPE_GLOBAL d))) as [gd Hgd].
  eexists _, gl, tl, gd. split_and!; [done| | |done].
  - by rewrite ensure_dict_other, ensure_list_other.
  - by rewrite ensure_dict_other.
Qed.

Lemma ensure_scope_nonempty rs : Forall (fun r => scope r <> "") (ensure_scope <$> rs).
Proof.
  apply Forall_fmap, Forall_forall. intros r _. simpl. unfold ensure_scope.
  destruct (String.eqb_spec (scope r) ""); done.
Qed.

(** X13: when [load_workspace] returns normally from a document, the
    application holds the path and the document, the ignore-word store has
    its GLOBAL and TEMPORARY lists and its per-genre mapping, whatever the
    document held there, and every rule has a scope.  When the document holds
    a dict of scoped ignore words, the store is that dict with the missing
    buckets added, and the document the application holds shows them too,
    the dict being one object; otherwise the application holds the document
    as it was read. *)
Theorem load_workspace_establishes st path data :
  files st !! path = Some (JDict data) ->
  (load_workspace path st).1 = Ok tt ->
  let st' := (load_workspace path st).2 in
  workspace_path st' = path /\
  match dict_get data "ignore_scoped" with
  | JDict d =>
      ignore_scoped st' = Some (JDict (ensure_buckets d)) /\
      workspace st' = <["ignore_scoped" := JDict (ensure_buckets d)]> data
  | _ => workspace st' = data
  end /\
  wf_scoped (ignore_scoped st') /\
  Forall (fun r => scope r <> "") (rules st').
Proof.
  intros Hfile. cbv zeta. unfold load_workspace. run. simpl. rewrite Hfile. simpl.
  destruct (dict_get data "ignore_scoped"); simpl; repeat load_step; try done;
    intros _; split_and!; try done;
    try apply ensure_buckets_wf; apply ensure_scope_nonempty.
Qed.

(** X14: a document without a scoped ignore-word store but with the flat
    list of ignore words is loaded with that list as the GLOBAL bucket, an
    empty TEMPORARY bucket and an empty per-genre mapping. *)
Theorem load_workspace_legacy st path data (l : list json) :
  files st !! path = Some (JDict data) ->
  (forall d, dict_get data "ignore_scoped" <> JDict d) ->
  dict_get data "ignore_words" = JList l ->
  ignore_scoped (load_workspace path st).2
  = Some (JDict (<[SCOPE_GENRE := JDict ∅]> (<[SCOPE_TMP := JList []]>
                   (<[SCOPE_GLOBAL := JList l]> ∅)))).
Proof.
  intros Hfile Hno Hl. unfold load_workspace. run. simpl. rewrite Hfile. simpl.
  assert (Hid : ensure_buckets
            (<[SCOPE_GENRE := JDict ∅]> (<[SCOPE_TMP := JList []]>
               (<[SCOPE_GLOBAL := JList l]> ∅)))
          = <[SCOPE_GENRE := JDict ∅]> (<[SCOPE_TMP := JList []]>
               (<[SCOPE_GLOBAL := JList l]> ∅))).
  { by apply (ensure_buckets_id _ l [] ∅). }
  rewrite Hl, py_or_list. simpl.
  destruct (dict_get data "ignore_scoped") eqn:Hs; simpl;
    try (by destruct (Hno _ eq_refl));
    repeat load_step; by rewrite ?Hid.
Qed.

(** X15: a rule record that cannot be read makes [load_workspace] stop
    half-way: it does not return normally, the rules and the matchers in
    place stay, and the document, its path and its genre have already
    replaced the previous ones. *)
Theorem load_workspace_bad_record st path data e :
  files st !! path = Some (JDict data) ->
  load_rules workspace_rule (py_or (dict_get data "rules") (JList [])) = Raise e ->
  let st' := (load_workspace path st).2 in
  (load_workspace path st).1 <> Ok tt /\
  rules st' = rules st /\ compiled st' = compiled st /\
  workspace_path st' = path /\ workspace st' = data /\
  genre st' = py_str (py_or (dict_get data "genre") (JStr GENRE_UNSELECTED)).
Proof.
  intros Hfile Hbad. cbv zeta. unfold load_workspace. run. simpl.
  rewrite Hfile. simpl. rewrite Hbad.
  destruct (dict_get data "ignore_scoped"); simpl; repeat load_step; done.
Qed.

(** X16: a missing or unreadable document, and for the workspace also a
    document that is not an object, is passed over: both loaders return
    normally and leave the application as it was.  A rule pack that holds a
    number, a string or a truth value is not passed over: it leaves the
    workshop without any rule. *)
Theorem load_missing_document st path :
  (files st !! path = None ->
   load_workspace path st = (Ok tt, st) /\ load_rules_pack path st = (Ok tt, st)) /\
  (forall v, files st !! path = Some v -> (forall d, v <> JDict d) ->
   load_workspace path st = (Ok tt, st)) /\
  (files st !! path = Some JNull -> load_rules_pack path st = (Ok tt, st)) /\
  (forall v, files st !! path = Some v ->
   match v with JBool _ | JInt _ | JFloat _ | JStr _ => True | _ => False end ->
   let st' := (load_rules_pack path st).2 in
   rules st' = [] /\ compiled st' = [] /\ rules_pack_path st' = path).
Proof.
  unfold load_workspace, load_rules_pack. run. split_and!.
  - by intros ->.
  - intros v -> Hv. destruct v; try done. by destruct (Hv d).
  - by intros ->.
  - intros v -> Hv. cbv zeta.
    destruct v; try done; simpl;
      match goal with |- context [refresh_all ?s] =>
        destruct (refresh_all_run s) as [res Hres]; rewrite Hres end; done.
Qed.

End LoadProofs.

(** ** Opening the workshop *)

Section StartupProofs.
Context {RT : Runtime}.
Implicit Types (st : App) (rs : list Rule) (r : Rule) (d : gmap string json).

Ltac run := unfold mbind, M_bind, mret, M_ret, get_state, modify, lift, raise, pass.

(** X17: the document that [save_workspace] wrote for a well-formed
    workspace gives that workspace's content back in any application that
    loads it, whatever that application held before; its matchers are left
    as they were. *)
Theorem load_saved_document st st0 :
  wf_workspace st0 ->
  files st !! workspace_path st0
  = files (save_workspace st0).2 !! workspace_path st0 ->
  let st' := (load_workspace (workspace_path st0) st).2 in
  content st' = content st0 /\ workspace_path st' = workspace_path st0 /\
  compiled st' = compiled st.
Proof.
  intros (Hp & Hgen & (d & gl & tl & gd & Hi & Hg & Ht & Hd) & Hwf) Hfile.
  rewrite (save_workspace_wf st0 d gl) in Hfile by done. simpl in Hfile.
  rewrite lookup_insert_eq in Hfile. cbv zeta.
  rewrite (load_document st st0 _ gl d gl tl gd) by done.
  by rewrite refresh_all_state.
Qed.

(** X18: a workshop opened on the document saved from a well-formed
    workspace that holds a rule and a sample title raises [IndexError]:
    [load_workspace] counts the hits before any matcher is compiled.  The
    content of the workspace is in place when it does. *)
Theorem reopen_saved_workspace st0 (rp : string) :
  wf_workspace st0 -> rules st0 <> [] -> sample_titles st0 <> [] ->
  let opened := open_workshop_window true (workspace_path st0) rp
                  (files (save_workspace st0).2) in
  opened.1 = Raise IndexError /\ content opened.2 = content st0 /\
  compiled opened.2 = [].
Proof.
  intros Hwf Hr Ht. cbv zeta.
  pose proof Hwf as (Hp & Hgen & (d & gl & tl & gd & Hi & Hg & Htl & Hd) & Hrs).
  unfold open_workshop_window, ensure_workspace_file, WorkshopApp_init.
  rewrite eqb_false by done. run. simpl.
  rewrite (load_document _ st0 _ gl d gl tl gd); try done.
  2: { simpl. rewrite (save_workspace_wf st0 d gl) by done. simpl.
       by rewrite lookup_insert_eq. }
  unfold refresh_all. run. simpl.
  destruct (rules st0) as [|r rs] eqn:Hrules; [done|].
  destruct (sample_titles st0) as [|t ts] eqn:Hts; [done|].
  rewrite update_rule_hits_unprepared. simpl.
  split_and!; try done. unfold content. simpl. by rewrite Hts, Hrules.
Qed.

Lemma default_document_entries :
  dict_get DEFAULT_WORKSPACE "genre" = JStr "（無選択）" /\
  dict_get DEFAULT_WORKSPACE "ignore_scoped" = JDict EMPTY_SCOPED /\
  dict_get DEFAULT_WORKSPACE "exclude_examples" = JList [] /\
  dict_get DEFAULT_WORKSPACE "keep_examples" = JList [] /\
  dict_get DEFAULT_WORKSPACE "sample_titles" = JList [] /\
  dict_get DEFAULT_WORKSPACE "rules" = JList [].
Proof. split_and!; by vm_compute. Qed.

Lemma heuristic_suggestions_scope (examples : list json) (iw : list string) :
  Forall (fun r => scope r = SCOPE_GLOBAL) (heuristic_suggestions examples iw).
Proof.
  unfold heuristic_suggestions. destruct (re_escape <$> _); by repeat constructor.
Qed.

Lemma heuristic_suggestions_no_words (examples : list json) :
  key <$> heuristic_suggestions examples []
  = ["tail_number"; "bracket_tag"; "camera_prefix"].
Proof. done. Qed.

#[local] Opaque heuristic_suggestions.

Lemma recompile_loop_scope rs (sc : string) rs' :
  Forall2 (fun r r' => key r' = key r /\ scope r' = scope r /\
                       apply_genre r' = apply_genre r) rs rs' ->
  Forall (fun r => scope r = sc) rs -> Forall (fun r => scope r = sc) rs'.
Proof.
  induction 1 as [|r r' l l' (_ & Hs & _) _ IH]; [done|].
  inversion 1; subst. constructor; [congruence|by apply IH].
Qed.

(** X19: the first launch, with no workspace file and no rule pack: the
    default document is written and loaded, and the collection is seeded with
    the three starter rules, all of scope GLOBAL; the ignore-word store has
    its three empty buckets; nothing else is written. *)
Theorem first_launch (wp rp : string) (fs : gmap string json) :
  wp <> "" -> rp <> wp -> fs !! rp = None ->
  let opened := open_workshop_window false wp rp fs in
  key <$> rules opened.2 = ["tail_number"; "bracket_tag"; "camera_prefix"] /\
  Forall (fun r => scope r = SCOPE_GLOBAL) (rules opened.2) /\
  genre opened.2 = "（無選択）" /\
  ignore_scoped opened.2 = Some (JDict EMPTY_SCOPED) /\
  sample_titles opened.2 = [] /\
  files opened.2 = <[wp := JDict DEFAULT_WORKSPACE]> fs.
Proof.
  intros Hwp Hne Hrp. cbv zeta.
  unfold open_workshop_window, ensure_workspace_file, WorkshopApp_init.
  rewrite eqb_false by done. run. simpl.
  unfold load_workspace. run. simpl. rewrite lookup_insert_eq. simpl.
  destruct default_document_entries as (-> & -> & -> & -> & -> & ->). simpl.
  rewrite (ensure_buckets_id EMPTY_SCOPED [] [] ∅) by done.
  unfold load_rules_pack. run. simpl.
  rewrite lookup_insert_ne, Hrp by done. simpl.
  unfold recompile_all. simpl.
  set (hs := heuristic_suggestions [] []).
  pose proof (recompile_loop_keys hs) as Hk.
  unfold hs in Hk at 2. rewrite heuristic_suggestions_no_words in Hk.
  pose proof (recompile_loop_fields hs) as Hf.
  destruct (recompile_loop hs) as [[res rs'] cs]. simpl in Hk, Hf.
  assert (Hsc : Forall (fun r => scope r = SCOPE_GLOBAL) rs').
  { apply (recompile_loop_scope hs SCOPE_GLOBAL rs') in Hf; [done|].
    apply heuristic_suggestions_scope. }
  destruct res as [[]|e]; simpl; done.
Qed.

#[local] Transparent heuristic_suggestions.

End StartupProofs.

(** ** Rule packs and saved documents *)

Section PackProofs.
Context {RT : Runtime}.
Implicit Types (st : App) (rs : list Rule) (r : Rule) (d : gmap string json).

Ltac run := unfold mbind, M_bind, mret, M_ret, get_state, modify, lift, raise, pass.

(** Reading back the record of a rule as a pack record: the scope is lost. *)
Lemma pack_rule_rule_to_dict n r :
  key r <> "" -> name r <> "" -> source r <> "" -> wf_genres (genres r) ->
  pack_rule n (rule_to_dict r) = Ok (set_scope SCOPE_GLOBAL "" r).
Proof.
  intros Hk Hn Hs Hg.
  unfold pack_rule, rule_from_item, dict_get, dict_get_default.
  rewrite rule_to_dict_flags, rule_to_dict_key, rule_to_dict_name,
    rule_to_dict_pattern, rule_to_dict_why, rule_to_dict_enabled,
    rule_to_dict_source, rule_to_dict_error.
  fold (dict_get (rule_to_dict r) "genres").
  change (match dict_get (rule_to_dict r) "genres" with
          | JList l => Some (List.filter (fun s => negb (is_blank s)) (py_str <$> l))
          | _ => None
          end) with (parse_genres (rule_to_dict r)).
  rewrite parse_genres_rule_to_dict by done. simpl.
  rewrite py_int_or_flags. simpl.
  rewrite (py_str_or_nonempty (key r)), (py_str_or_nonempty (name r)),
    (py_str_or_nonempty (source r)), !py_str_or_empty_default by done.
  destruct (String.eqb_spec (error r) "") as [He|He]; simpl;
    rewrite ?py_str_or_empty_default; destruct r; simpl in *; by subst.
Qed.

Lemma load_rules_loop_pack rs : forall acc,
  Forall (fun r => key r <> "" /\ name r <> "" /\ source r <> "" /\
                   wf_genres (genres r)) rs ->
  load_rules_loop pack_rule (JDict <$> (rule_to_dict <$> rs)) acc
  = Ok (acc ++ (set_scope SCOPE_GLOBAL "" <$> rs)).
Proof.
  induction rs as [|r rs IH]; intros acc Hwf; simpl.
  - by rewrite app_nil_r.
  - inversion_clear Hwf as [|? ? Hr Hrest]. destruct Hr as (Hk & Hn & Hs & Hg).
    rewrite pack_rule_rule_to_dict by done.
    rewrite IH by done. by rewrite <- app_assoc.
Qed.

(** Recompiling changes the error fields only, also when it is cut short. *)
Lemma recompile_loop_same rs :
  set_error "" <$> (recompile_loop rs).1.2 = set_error "" <$> rs.
Proof.
  induction rs as [|r rs IH]; [done|]. cbn [recompile_loop].
  destruct (compile_rule (set_error "" r)) as [[r1 c]|e] eqn:Hc.
  - destruct (compile_rule_entry _ _ _ Hc) as (e & -> & _).
    destruct (recompile_loop rs) as [[res rs'] cs]. cbn [fst snd] in *.
    by rewrite !fmap_cons, IH.
  - done.
Qed.

(** X20: a rule pack that is exported and loaded again gives back every
    rule, in order, with its key, name, pattern, justification, enabled
    flag, flags, source and genre tags; the scope comes back as GLOBAL and
    the genre a rule applies to is lost. *)
Theorem export_then_load_pack st (chosen now : string) :
  chosen <> "" ->
  Forall (fun r => key r <> "" /\ name r <> "" /\ source r <> "" /\
                   wf_genres (genres r)) (rules st) ->
  let st' := (load_rules_pack chosen (export_rules_pack chosen now st).2).2 in
  pack_fields <$> rules st' = pack_fields <$> rules st /\
  Forall global_scoped (rules st') /\
  rules_pack_path st' = chosen.
Proof.
  intros Hc Hwf. cbv zeta. unfold export_rules_pack. rewrite eqb_false by done.
  run. simpl. unfold load_rules_pack. run. simpl.
  rewrite lookup_insert_eq. simpl.
  unfold dict_get. rewrite lookup_insert_eq. simpl. rewrite py_or_list. simpl.
  rewrite load_rules_loop_pack by done. simpl.
  unfold recompile_all. simpl.
  pose proof (recompile_loop_same (set_scope SCOPE_GLOBAL "" <$> rules st)) as Hs.
  pose proof (recompile_loop_global (set_scope SCOPE_GLOBAL "" <$> rules st)) as Hg.
  destruct (recompile_loop (set_scope SCOPE_GLOBAL "" <$> rules st))
    as [[res rs'] cs]. simpl in Hs, Hg.
  assert (Hpf : pack_fields <$> rs' = pack_fields <$> rules st).
  { transitivity (set_scope SCOPE_GLOBAL "" <$> (set_error "" <$> rs')).
    - rewrite <- list_fmap_compose. by apply list_fmap_ext.
    - rewrite Hs, <- !list_fmap_compose. by apply list_fmap_ext. }
  assert (Hgl : Forall global_scoped rs').
  { apply Hg, Forall_fmap, Forall_forall. by intros r _. }
  destruct res as [[]|e]; simpl; [|done].
  match goal with |- context [refresh_all ?s] =>
    destruct (refresh_all_run s) as [res Hres]; rewrite Hres end.
  done.
Qed.

(** X21: a rule pack may be a bare list of records or an object holding the
    list under [rules]: both load the same rules, with the same matchers and
    the same outcome. *)
Theorem load_rules_pack_bare_list st path (items : list json) d :
  d !! "rules" = Some (JList items) ->
  let bare := load_rules_pack path (set_files (<[path := JList items]> (files st)) st) in
  let wrapped := load_rules_pack path (set_files (<[path := JDict d]> (files st)) st) in
  bare.1 = wrapped.1 /\ rules bare.2 = rules wrapped.2 /\
  compiled bare.2 = compiled wrapped.2.
Proof.
  intros Hd. cbv zeta. unfold load_rules_pack. run. simpl.
  rewrite !lookup_insert_eq. simpl. unfold dict_get. rewrite Hd. simpl.
  rewrite py_or_list.
  change (load_rules pack_rule (JList items))
    with (load_rules_loop pack_rule items []).
  destruct (load_rules_loop pack_rule items []) as [rs|e]; simpl; [|done].
  unfold recompile_all. simpl.
  destruct (recompile_loop rs) as [[res rs'] cs]. simpl.
  destruct res as [[]|e]; simpl; [|done].
  unfold refresh_all. run. simpl.
  destruct (update_rule_hits rs' cs (sample_titles st)); simpl; [|done].
  destruct (refresh_preview rs' cs (sample_titles st)); done.
Qed.

Lemma load_rules_loop_generated (mk : nat -> gmap string json -> result Rule)
    (items : list json) : forall acc rs,
  (forall n it r, mk n it = Ok r ->
     key r = py_str (py_or (dict_get it "key") (JStr ("R_" +:+ pretty n)))) ->
  Forall (fun it => match it with
                    | JDict d => truthy (dict_get d "key") = false
                    | _ => True
                    end) items ->
  load_rules_loop mk items acc = Ok rs ->
  exists new, rs = acc ++ new /\
    key <$> new = (fun n => "R_" +:+ pretty n) <$> seq (length acc) (length new).
Proof.
  induction items as [|x items IH]; intros acc rs Hmk Hall; simpl.
  - intros [= <-]. exists []. by rewrite app_nil_r.
  - inversion_clear Hall as [|? ? Hx Hrest].
    destruct x; try (by apply IH).
    destruct (mk (length acc) d) as [r|] eqn:Hr; [|done].
    intros Hload. destruct (IH _ _ Hmk Hrest Hload) as (new & -> & Hkeys).
    exists (r :: new). split; [by rewrite <- app_assoc|].
    rewrite length_app in Hkeys. cbn [length] in Hkeys.
    rewrite Nat.add_1_r in Hkeys.
    cbn [length seq]. rewrite !fmap_cons, Hkeys. f_equal.
    rewrite (Hmk _ _ _ Hr). unfold py_or. by rewrite Hx.
Qed.

(** X22: when no record of a document carries a key, both loaders name the
    rules [R_0], [R_1], ... in the order they are loaded (entries that are
    not objects are skipped and do not count), so the keys are distinct. *)
Theorem load_rules_generated_keys (mk : nat -> gmap string json -> result Rule)
    (items : list json) rs :
  mk = pack_rule \/ mk = workspace_rule ->
  Forall (fun it => match it with
                    | JDict d => truthy (dict_get d "key") = false
                    | _ => True
                    end) items ->
  load_rules mk (JList items) = Ok rs ->
  key <$> rs = (fun n => "R_" +:+ pretty n) <$> seq 0 (length rs) /\
  NoDup (key <$> rs).
Proof.
  intros Hmk Hall Hload. simpl in Hload.
  apply load_rules_loop_generated in Hload as (new & -> & Hkeys); [|
    |done].
  - simpl in *. split; [done|]. rewrite Hkeys.
    apply NoDup_fmap_2; [|apply NoDup_seq].
    intros n m Hnm. apply (inj pretty). by injection Hnm.
  - intros n it r. destruct Hmk as [-> | ->].
    + unfold pack_rule, rule_from_item. destruct (py_int _); [|done].
      by intros [= <-].
    + unfold workspace_rule, rule_from_item. destruct (py_int _); [|done].
      by intros [= <-].
Qed.

(** X23: [save_workspace] writes the document it then holds; the flat list
    of ignore words in it is the GLOBAL bucket; the entries of the document
    that the workshop does not manage are kept as they were loaded, and no
    other file is written. *)
Theorem save_workspace_keeps_entries st d (gl : list json) :
  workspace_path st <> "" -> ignore_scoped st = Some (JDict d) ->
  d !! SCOPE_GLOBAL = Some (JList gl) ->
  let st' := (save_workspace st).2 in
  files st' !! workspace_path st = Some (JDict (workspace st')) /\
  workspace st' !! "ignore_words" = Some (JList gl) /\
  (forall k : string,
     k ∉ ["genre"; "exclude_examples"; "keep_examples"; "sample_titles";
          "ignore_scoped"; "ignore_words"; "rules"] ->
     workspace st' !! k = workspace st !! k) /\
  (forall p : string, p <> workspace_path st -> files st' !! p = files st !! p) /\
  content st' = content st.
Proof.
  intros Hp Hi Hg. cbv zeta. rewrite (save_workspace_wf st d gl) by done. simpl.
  split_and!; try done.
  - by rewrite lookup_insert_eq.
  - unfold workspace_document. by simplify_map_eq.
  - intros k Hk. unfold workspace_document.
    rewrite !lookup_insert_ne; [done|..]; intros <-; apply Hk; set_solver.
  - intros p Hne. by rewrite lookup_insert_ne.
Qed.

End PackProofs.

(** ** Scopes, edits and starter rules *)

Section ScopeProofs.
Context {RT : Runtime}.
Implicit Types (st : App) (rs : list Rule) (r : Rule).

Ltac run := unfold mbind, M_bind, mret, M_ret, get_state, modify, lift, raise, pass.

(** X24: a rule is listed under at most one of the three scope selections,
    for any current genre. *)
Theorem visible_at_most_one (g : string) r (s1 s2 : string) :
  s1 ∈ [SCOPE_TMP; SCOPE_GLOBAL; SCOPE_GENRE] ->
  s2 ∈ [SCOPE_TMP; SCOPE_GLOBAL; SCOPE_GENRE] ->
  s1 <> s2 -> visible s1 g r = true -> visible s2 g r = false.
Proof.
  rewrite !elem_of_cons, !elem_of_nil.
  unfold visible, SCOPE_TMP, SCOPE_GLOBAL, SCOPE_GENRE.
  generalize (if String.eqb (scope r) "" then "__global__"%string else scope r).
  intros rs [-> | [-> | [-> | []]]] [-> | [-> | [-> | []]]] Hne; try done; simpl;
    repeat (match goal with
            | |- context [String.eqb ?a ?b] => destruct (String.eqb_spec a b)
            end; simpl; try done; try congruence).
Qed.

Lemma fmap_through_error {B} (f : Rule -> B) (l1 l2 : list Rule) :
  (forall e r, f (set_error e r) = f r) ->
  set_error "" <$> l1 = set_error "" <$> l2 -> f <$> l1 = f <$> l2.
Proof.
  intros Hf H. transitivity (f <$> (set_error "" <$> l1)).
  - rewrite <- list_fmap_compose. apply list_fmap_ext; intros; simpl; by rewrite Hf.
  - rewrite H, <- list_fmap_compose. apply list_fmap_ext; intros; simpl; by rewrite Hf.
Qed.

Lemma apply_rule_edit_rules st i r (nv wv gv fv pt : string) :
  rules st !! i = Some r ->
  exists n w g fl p,
    set_error "" <$> rules (apply_rule_edit (Some i) nv wv gv fv pt st).2
    = set_error "" <$> <[i := edit_rule n w g fl p r]> (rules st).
Proof.
  intros Hi. unfold apply_rule_edit. run. simpl. rewrite Hi. simpl.
  do 5 eexists. unfold recompile_all. simpl.
  match goal with |- context [recompile_loop ?l] =>
    pose proof (recompile_loop_same l) as Hs;
    destruct (recompile_loop l) as [[res rs'] cs] end.
  simpl in Hs. destruct res as [[]|e]; simpl; [|exact Hs].
  match goal with |- context [refresh_all ?s] =>
    destruct (refresh_all_run s) as [res Hres]; rewrite Hres end.
  exact Hs.
Qed.

(** X25: [apply_rule_edit] changes neither the key, the enabled flag, the
    source, the scope nor the genre of any rule, so every rule stays listed
    where it was; in the rules that are not selected it changes nothing but
    the error that recompiling sets.  With a row past the end it raises
    IndexError and changes nothing; with no row selected it returns and
    changes nothing. *)
Theorem apply_rule_edit_frame st (idx : option nat) (nv wv gv fv pt : string) :
  let out := apply_rule_edit idx nv wv gv fv pt st in
  let st' := out.2 in
  (fun r => (key r, enabled r, source r, scope r, apply_genre r)) <$> rules st'
  = (fun r => (key r, enabled r, source r, scope r, apply_genre r)) <$> rules st /\
  (forall s g, visible s g <$> rules st' = visible s g <$> rules st) /\
  (forall j, idx <> Some j ->
     set_error "" <$> (rules st' !! j) = set_error "" <$> (rules st !! j)) /\
  (forall i, idx = Some i -> rules st !! i = None -> out = (Raise IndexError, st)) /\
  (idx = None -> out = (Ok tt, st)).
Proof.
  cbv zeta. destruct idx as [i|]; [|by split_and!].
  destruct (rules st !! i) as [r|] eqn:Hi.
  - destruct (apply_rule_edit_rules st i r nv wv gv fv pt Hi)
      as (n & w & g & fl & p & Hs).
    assert (Hfr : forall B (f : Rule -> B),
      (forall e r, f (set_error e r) = f r) ->
      (forall r, f (edit_rule n w g fl p r) = f r) ->
      f <$> rules (apply_rule_edit (Some i) nv wv gv fv pt st).2 = f <$> rules st).
    { intros B f Hf He. rewrite (fmap_through_error f _ _ Hf Hs).
      rewrite list_fmap_insert, He. apply list_insert_id.
      by rewrite list_lookup_fmap, Hi. }
    split_and!.
    + by apply Hfr.
    + intros s g0. by apply Hfr.
    + intros j Hj. rewrite <- !list_lookup_fmap, Hs, list_fmap_insert.
      apply list_lookup_insert_ne. congruence.
    + intros i' [= <-]. by rewrite Hi.
    + done.
  - assert (Hst : apply_rule_edit (Some i) nv wv gv fv pt st = (Raise IndexError, st)).
    { unfold apply_rule_edit. run. by rewrite Hi. }
    rewrite Hst. by split_and!.
Qed.

Lemma filter_nonblank_nil (iw : list string) :
  forallb is_blank iw = true ->
  List.filter (fun w => negb (is_blank w)) iw = [].
Proof.
  induction iw as [|w iw IH]; [done|]. cbn [forallb List.filter].
  intros [Hw Hrest]%andb_prop. rewrite Hw. by apply IH.
Qed.

Lemma filter_nonblank_cons (iw : list string) :
  forallb is_blank iw = false ->
  exists w l, List.filter (fun w => negb (is_blank w)) iw = w :: l.
Proof.
  induction iw as [|w iw IH]; [done|]. cbn [forallb List.filter].
  destruct (is_blank w); simpl; [by apply IH|by eexists _, _].
Qed.

(** X26: the starter rules are tail_number, bracket_tag and camera_prefix,
    with ignore_words in third place exactly when some ignore word is not
    blank; all are enabled, with flags 0, no error and scope GLOBAL. *)
Theorem heuristic_suggestions_shape (examples : list json) (iw : list string) :
  key <$> heuristic_suggestions examples iw
  = (if forallb is_blank iw
     then ["tail_number"; "bracket_tag"; "camera_prefix"]
     else ["tail_number"; "bracket_tag"; "ignore_words"; "camera_prefix"])%string /\
  Forall (fun r => enabled r = true /\ flags r = 0%Z /\ error r = "" /\
                   scope r = SCOPE_GLOBAL /\ apply_genre r = "")
         (heuristic_suggestions examples iw).
Proof.
  unfold heuristic_suggestions.
  destruct (forallb is_blank iw) eqn:Hb.
  - rewrite filter_nonblank_nil by done. simpl. split; [done|].
    by repeat constructor.
  - destruct (filter_nonblank_cons iw Hb) as (w & l & ->). simpl.
    split; [done|]. by repeat constructor.
Qed.

End ScopeProofs.

(** ** Examples of the further properties *)

(** A stale error on a disabled rule is cleared, a malformed pattern gets
    the engine's message, and a second recompilation changes nothing. *)
Lemma recompile_all_stable_witness :
  let out := recompile_loop (RT := sample_runtime) rules_with_stale_error in
  length out.1.2 = 3 /\ length out.2 = 3 /\
  key <$> out.1.2 = key <$> rules_with_stale_error /\
  recompile_loop (RT := sample_runtime) out.1.2 = (Ok tt, out.1.2, out.2).
Proof.
  intros out.
  exact (recompile_all_stable (RT := sample_runtime) rules_with_stale_error
           out.1.2 out.2 eq_refl).
Defined.

Lemma recompile_all_entry_witness :
  let out := recompile_loop (RT := sample_runtime) rules_with_stale_error in
  exists e c,
    out.1.2 !! 1 = Some (set_error e (mkRule "off" "disabled" "Title" "" false 0
                                             "WORKSHOP" "stale" None SCOPE_GLOBAL "")) /\
    out.2 !! 1 = Some c /\ e = "" /\ c = None.
Proof.
  intros out.
  exact (recompile_all_entry (RT := sample_runtime) rules_with_stale_error
           out.1.2 out.2 1 _ eq_refl eq_refl).
Defined.

Lemma evaluate_after_recompile_witness :
  let out := recompile_loop (RT := sample_runtime) rules_with_stale_error in
  exists hits,
    update_rule_hits (RT := sample_runtime) out.1.2 out.2
      (JStr <$> ["Show Title 01"; "Random Clean Title"]%string) = Ok hits /\
    length hits = 3 /\
    forall i r', out.1.2 !! i = Some r' ->
      enabled r' = false \/ pattern r' = "" \/ error r' <> "" ->
      hits !! i = Some 0.
Proof.
  intros out.
  exact (evaluate_after_recompile (RT := sample_runtime) rules_with_stale_error
           out.1.2 out.2 ["Show Title 01"; "Random Clean Title"]%string eq_refl).
Defined.

(** Rules of other scopes, names and keys, with the same enabled flags. *)
Lemma update_rule_hits_enabled_only_witness :
  update_rule_hits (RT := sample_runtime) rules_each_scope
    [Some "Show"; Some "Title"; Some "01"]%string
    (JStr <$> ["Show Title 01"; "Random Clean Title"]%string)
  = update_rule_hits (RT := sample_runtime) (take 3 rules_three_tmp)
      [Some "Show"; Some "Title"; Some "01"]%string
      (JStr <$> ["Show Title 01"; "Random Clean Title"]%string).
Proof.
  apply (update_rule_hits_enabled_only (RT := sample_runtime)).
  repeat constructor.
Defined.

Lemma preview_line_first_match_witness :
  let rs := rules_each_scope in
  let cs := [Some "Show"; Some "Title"; Some "01"]%string in
  (forall i, first_to_fire (RT := sample_runtime) rs cs i "Random Clean Title" = false) /\
  preview_line (RT := sample_runtime) rs cs (JStr "Random Clean Title")
    = Ok "Random Clean Title"%string \/
  exists i r, first_to_fire (RT := sample_runtime) rs cs i "Random Clean Title" = true /\
              rs !! i = Some r /\
              preview_line (RT := sample_runtime) rs cs (JStr "Random Clean Title")
              = Ok ("Random Clean Title" ++ " -> " ++ name r)%string.
Proof.
  intros rs cs.
  apply (preview_line_first_match (RT := sample_runtime) rs cs "Random Clean Title").
  simpl. lia.
Defined.

Lemma toggle_twice_witness :
  let st := sample_app rules_each_scope in
  let st1 := (toggle_selected_rule (Some 1) st).2 in
  let st2 := (toggle_selected_rule (Some 1) st1).2 in
  enabled <$> rules st1 = <[1 := false]> (enabled <$> rules st) /\
  key <$> rules st1 = key <$> rules st /\
  rules st2 = rules st /\ compiled st2 = compiled st.
Proof.
  intros st.
  exact (toggle_twice (RT := sample_runtime) st 1
           (sample_rule "custom_1" "common" "Title" SCOPE_GLOBAL "")
           _ _ (rules st) (compiled st) eq_refl eq_refl eq_refl).
Defined.

Lemma promote_to_genre_effect_witness :
  let st := sample_app rules_three_tmp in
  let st' := (promote_selected_rule_to_genre (Some 0) st).2 in
  let r' := sample_rule "t1" "draft 1" "Show" SCOPE_GENRE "Comics" in
  rules st' = <[0 := r']> (rules st) /\ genre st' = genre st /\
  visible SCOPE_GENRE (genre st') r' = true /\
  (forall g, visible SCOPE_TMP g r' = false /\ visible SCOPE_GLOBAL g r' = false).
Proof.
  intros st.
  exact (promote_to_genre_effect (RT := sample_runtime) st 0
           (sample_rule "t1" "draft 1" "Show" SCOPE_TMP "") eq_refl).
Defined.

Lemma add_new_rule_effect_witness :
  let st := sample_app rules_each_scope in
  let st' := (add_new_rule st).2 in
  let new := mkRule "custom_3" "新規ルール3" "" "" true 0 "WORKSHOP" "" None SCOPE_TMP "" in
  rules st' = rules st ++ [new] /\ compiled st' = compiled st ++ [None] /\
  visible (get_current_scope st') (genre st') new = true.
Proof.
  intros st.
  exact (add_new_rule_effect (RT := sample_runtime) st (rules st) (compiled st) eq_refl).
Defined.

Lemma refresh_ignore_list_after_clear_witness :
  refresh_ignore_list (clear_tmp_scope true (sample_app rules_three_tmp)).2 = Ok [].
Proof.
  exact (refresh_ignore_list_after_clear (RT := sample_runtime)
           (sample_app rules_three_tmp) sample_scoped eq_refl).
Defined.

(** The two missing buckets are added to the store and show in the
    document that the application holds. *)
Lemma load_workspace_establishes_witness :
  let st := app_with_file "part.json" (JDict partial_document) in
  let st' := (load_workspace "part.json" st).2 in
  let filled : gmap string json :=
    <[SCOPE_GENRE := JDict ∅]> (<[SCOPE_TMP := JList []]>
      (<[SCOPE_GLOBAL := JList [JStr "raw"]]> ∅)) in
  workspace_path st' = "part.json" /\
  (ignore_scoped st' = Some (JDict filled) /\
   workspace st' = <["ignore_scoped" := JDict filled]> partial_document) /\
  wf_scoped (ignore_scoped st') /\
  Forall (fun r => scope r <> "") (rules st').
Proof.
  intros st.
  exact (load_workspace_establishes (RT := sample_runtime) st "part.json"
           partial_document eq_refl eq_refl).
Defined.

Lemma load_workspace_legacy_witness :
  ignore_scoped
    (load_workspace "old.json" (app_with_file "old.json" (JDict legacy_document))).2
  = Some (JDict (<[SCOPE_GENRE := JDict ∅]> (<[SCOPE_TMP := JList []]>
                   (<[SCOPE_GLOBAL := JList [JStr "raw"]]> ∅)))).
Proof.
  apply (load_workspace_legacy (RT := sample_runtime) _ "old.json" legacy_document).
  - reflexivity.
  - intros d H. vm_compute in H. discriminate.
  - reflexivity.
Defined.

Lemma load_workspace_bad_record_witness :
  let st := app_with_file "bad.json" (JDict bad_document) in
  let st' := (load_workspace "bad.json" st).2 in
  (load_workspace "bad.json" st).1 <> Ok tt /\
  rules st' = rules st /\ compiled st' = compiled st /\
  workspace_path st' = "bad.json" /\ workspace st' = bad_document /\
  genre st' = "Novels".
Proof.
  intros st.
  exact (load_workspace_bad_record (RT := sample_runtime) st "bad.json"
           bad_document ValueError eq_refl eq_refl).
Defined.

(** A new session opened on the files that the sample workshop saved. *)
Lemma load_saved_document_witness :
  let st0 := sample_app rules_each_scope in
  let st := initial_app (RT := sample_runtime) "workspace.json" "rules_pack.json"
              (files (save_workspace st0).2) in
  let st' := (load_workspace "workspace.json" st).2 in
  content st' = content st0 /\ workspace_path st' = "workspace.json" /\
  compiled st' = [].
Proof.
  intros st0 st.
  exact (load_saved_document (RT := sample_runtime) st st0 sample_app_wf eq_refl).
Defined.

Lemma reopen_saved_workspace_witness :
  let st0 := sample_app rules_each_scope in
  let opened := open_workshop_window (RT := sample_runtime) true "workspace.json"
                  "rules_pack.json" (files (save_workspace st0).2) in
  opened.1 = Raise IndexError /\ content opened.2 = content st0 /\
  compiled opened.2 = [].
Proof.
  intros st0.
  apply (reopen_saved_workspace (RT := sample_runtime) st0 "rules_pack.json"
           sample_app_wf); discriminate.
Defined.

Lemma first_launch_witness :
  let opened := open_workshop_window (RT := sample_runtime) false "workspace.json"
                  "rules_pack.json" ∅ in
  key <$> rules opened.2 = ["tail_number"; "bracket_tag"; "camera_prefix"]%string /\
  Forall (fun r => scope r = SCOPE_GLOBAL) (rules opened.2) /\
  genre opened.2 = "（無選択）" /\
  ignore_scoped opened.2 = Some (JDict EMPTY_SCOPED) /\
  sample_titles opened.2 = [] /\
  files opened.2 = <["workspace.json" := JDict DEFAULT_WORKSPACE]> ∅.
Proof.
  apply (first_launch (RT := sample_runtime) "workspace.json" "rules_pack.json" ∅);
    [discriminate|discriminate|reflexivity].
Defined.

Lemma export_then_load_pack_witness :
  let st := sample_app rules_each_scope in
  let st' := (load_rules_pack "out.json"
                (export_rules_pack "out.json" "2024-01-01 00:00:00" st).2).2 in
  pack_fields <$> rules st' = pack_fields <$> rules st /\
  Forall global_scoped (rules st') /\
  rules_pack_path st' = "out.json".
Proof.
  intros st.
  apply (export_then_load_pack (RT := sample_runtime) st "out.json"
           "2024-01-01 00:00:00"); [discriminate|].
  repeat constructor; discriminate.
Defined.

Lemma load_rules_pack_bare_list_witness :
  let items := [JDict (<["pattern" := JStr "Show"]> (<["key" := JStr "k"]> ∅))] in
  let d : gmap string json := <["rules" := JList items]> (<["meta" := JDict ∅]> ∅) in
  let st := sample_app [] in
  let bare := load_rules_pack "p.json"
                (set_files (<["p.json" := JList items]> (files st)) st) in
  let wrapped := load_rules_pack "p.json"
                   (set_files (<["p.json" := JDict d]> (files st)) st) in
  bare.1 = wrapped.1 /\ rules bare.2 = rules wrapped.2 /\
  compiled bare.2 = compiled wrapped.2.
Proof.
  intros items d st.
  exact (load_rules_pack_bare_list (RT := sample_runtime) st "p.json" items d eq_refl).
Defined.

(** Two keyless records around an entry that is not an object. *)
Lemma load_rules_generated_keys_witness :
  let rs := [ mkRule "R_0" "rule" "" "" true 0 "WORKSHOP" "" None SCOPE_GLOBAL "";
              mkRule "R_1" "n" "" "" true 0 "WORKSHOP" "" None SCOPE_GLOBAL "" ] in
  key <$> rs = (fun n => "R_" +:+ pretty n) <$> seq 0 (length rs) /\
  NoDup (key <$> rs).
Proof.
  intros rs.
  apply (load_rules_generated_keys (RT := sample_runtime)
           (pack_rule (RT := sample_runtime))
           [JDict ∅; JNull; JDict (<["name" := JStr "n"]> ∅)] rs).
  - by left.
  - repeat constructor.
  - reflexivity.
Defined.

(** An entry written by the viewer survives a save. *)
Lemma save_workspace_keeps_entries_witness :
  let st := set_workspace (RT := sample_runtime) (<["viewer" := JStr "v1"]> ∅)
              (sample_app rules_each_scope) in
  let st' := (save_workspace st).2 in
  files st' !! "workspace.json" = Some (JDict (workspace st')) /\
  workspace st' !! "ignore_words" = Some (JList [JStr "raw"; JStr "scan"]) /\
  (forall k : string,
     k ∉ ["genre"; "exclude_examples"; "keep_examples"; "sample_titles";
          "ignore_scoped"; "ignore_words"; "rules"]%string ->
     workspace st' !! k = workspace st !! k) /\
  (forall p : string, p <> "workspace.json" -> files st' !! p = files st !! p) /\
  content st' = content st.
Proof.
  intros st.
  apply (save_workspace_keeps_entries (RT := sample_runtime) st sample_scoped
           [JStr "raw"; JStr "scan"]); [discriminate|reflexivity|reflexivity].
Defined.

Lemma visible_at_most_one_witness :
  visible SCOPE_GLOBAL "Comics"
    (sample_rule "custom_2" "comics" "01" SCOPE_GENRE "Comics") = false.
Proof.
  apply (visible_at_most_one "Comics" _ SCOPE_GENRE SCOPE_GLOBAL).
  - set_solver.
  - set_solver.
  - discriminate.
  - reflexivity.
Defined.
